(** * HostBasedIDPS: the detection-and-response pipeline

    A shallow embedding of [detector.py] (AdvancedAnomalyDetector),
    [response.py] (ResponseEngine) and the event handler of [idps.py]
    (IDPSEventHandler), with the properties of the pipeline stated and
    proved over it.

    Conventions.
    - A [datetime] is an integer number of microseconds; [timedelta.seconds]
      is the seconds field of the normalised difference (see [Time]).
    - A Python method that mutates [self] becomes a function from the old
      object to the new one; a method that may raise returns the object as
      the exception leaves it together with the exception.
    - Calls on the attached response engine and [print] lines are collected
      in order as a list of [Effect]s; [ResponseEngine] interprets the calls
      over the operating-system state.
    - Library code (the isolation forest, [os], [shutil], [psutil],
      [os.path], [fnmatch]) is taken through interfaces ([Sklearn],
      [PathLib], [OS]); small instances are given to run the code on
      concrete inputs. *)

From Stdlib Require Import ZArith QArith Lia Ascii.
From stdpp Require Import gmap strings list fin_maps sorting.

Local Open Scope Z_scope.

(** ** Time: [datetime] and [timedelta.seconds] *)

Module Time.

(** A [datetime.datetime] value, in microseconds from a fixed origin. *)
Definition datetime : Type := Z.

Definition usec_per_sec : Z := 1000000.
Definition sec_per_day : Z := 86400.

(** Whole seconds in a span of [us] microseconds (floor). *)
Definition whole_seconds (us : Z) : Z := us / usec_per_sec.

(** [(a - b).seconds]: a timedelta is normalised to days, seconds in
    [0, 86400) and microseconds in [0, 10^6); [.seconds] is the middle
    field, not the total. *)
Definition timedelta_seconds (a b : datetime) : Z :=
  whole_seconds (a - b) mod sec_per_day.

Definition seconds (n : Z) : Z := n * usec_per_sec.
Definition days (n : Z) : Z := n * sec_per_day * usec_per_sec.

End Time.

(** ** Library interfaces *)

Definition FeatureVector : Type := list Z.

(** [sklearn.ensemble.IsolationForest]: [forest_fit contamination
    random_state X] is the fitted state after [fit(X)], or [None] when
    [fit] raises; [forest_predict] is [predict] of a fitted estimator on
    one point, [1] for an inlier and [-1] for an outlier, or [None] when
    it raises, as it does on a point that has not as many components as
    the matrix of [fit] had columns. *)
Class Sklearn := {
  Forest : Type;
  forest_fit : Q → Z → list FeatureVector → option Forest;
  forest_predict : Forest → FeatureVector → option Z
}.

(** [os.path] and [fnmatch]. *)
Class PathLib := {
  dirname : string → string;
  basename : string → string;
  path_join : string → string → string;
  fnmatch : string → string → bool
}.

(** One entry of [psutil.process_iter(['pid', 'open_files', 'name'])]:
    [open_files] is [None] when the handle list cannot be read. *)
Record ProcInfo := {
  pid : Z;
  open_files : option (list string)
}.

(** The operating system as the code sees it. A primitive that can raise
    returns [None] when it does. *)
Class OS := {
  World : Type;
  os_path_exists : World → string → bool;
  os_path_getsize : World → string → Z;
  os_chmod : string → Z → World → option World;
  shutil_move : string → string → World → option World;
  os_walk : World → string → list (string * list string);
  process_iter : World → list ProcInfo;
  psutil_Process : World → Z → bool;
  proc_terminate : Z → World → option World
}.

(** ** Observable effects *)

Inductive LogLine :=
  (* detector.py *)
  | MsgMLAnomaly
  | MsgDebugUsing
  | MsgWarnNoEngine
  | MsgThreatMedium (n : nat)
  | MsgThreatHigh (n : nat)
  (* response.py *)
  | MsgQuarantining (path : string)
  | ErrQuarantine
  | MsgLocking (path : string)
  | ErrLock
  | MsgKilling (p : Z)
  | ErrKill
  | MsgLockingDirectory (dir_path : string)
  | ErrLockInDir
  | MsgKillingOpen (p : Z) (fpath : string)
  (* idps.py *)
  | MsgAlert (what : string) (src dest : string).

(** A method call on [self.response_engine]. *)
Inductive ResponseCall :=
  | lock_file_call (path : string)
  | quarantine_file_call (path : string)
  | lock_directory_call (dir_path : string)
  | kill_offending_process_call (dir_path : string).

Inductive Effect :=
  | Print (l : LogLine)
  | Invoke (c : ResponseCall)
  | GuiLog (what : string) (src dest : string)
  | LogEvent (what : string) (src dest : string).

(** The exceptions that leave the pipeline, named by the place that
    raises them: the division in [_train_model], [np.array] on the
    samples, [fit], [predict] on an estimator that was never fitted,
    [predict] on a fitted one, and the handler's call on a detector that
    is [None]. *)
Inductive Exn :=
  | ZeroDivisionError
  | ValueError
  | FitError
  | NotFittedError
  | PredictError
  | AttributeError.

(** ** response.py *)

(** The engine's four containment actions and [kill_process]. [block_ip]
    is called from nowhere in the pipeline and is not embedded. *)
Record ResponseEngine := {
  quarantine_dir : string;
  dry_run : bool
}.

Module Response.
Section Engine.
Context `{PathLib} `{OS}.

Definition Action : Type := World → World * list LogLine.

Definition quarantine_file (self : ResponseEngine) (path : string) : Action :=
  fun w =>
    if negb (os_path_exists w path) then (w, [])
    else
      let dest := path_join (quarantine_dir self) (basename path) in
      if negb (dry_run self) then
        match shutil_move path dest w with
        | Some w' => (w', [MsgQuarantining path])
        | None => (w, [MsgQuarantining path; ErrQuarantine])
        end
      else (w, [MsgQuarantining path]).

Definition lock_file (self : ResponseEngine) (path : string) : Action :=
  fun w =>
    if negb (os_path_exists w path) then (w, [])
    else
      if negb (dry_run self) then
        match os_chmod path 256 w with     (* 0o400 *)
        | Some w' => (w', [MsgLocking path])
        | None => (w, [MsgLocking path; ErrLock])
        end
      else (w, [MsgLocking path]).

Definition kill_process (self : ResponseEngine) (p : Z) : Action :=
  fun w =>
    if psutil_Process w p then
      if negb (dry_run self) then
        match proc_terminate p w with
        | Some w' => (w', [MsgKilling p])
        | None => (w, [MsgKilling p; ErrKill])
        end
      else (w, [MsgKilling p])
    else (w, [ErrKill]).

(** The inner loop of [lock_directory]: chmod each file of one
    directory, reporting and skipping the ones that fail. *)
Fixpoint lock_files_in (root : string) (files : list string) : Action :=
  fun w =>
    match files with
    | [] => (w, [])
    | f :: files' =>
        let '(w1, out1) :=
          match os_chmod (path_join root f) 256 w with
          | Some w' => (w', [])
          | None => (w, [ErrLockInDir])
          end in
        let '(w2, out2) := lock_files_in root files' w1 in
        (w2, out1 ++ out2)
    end.

Fixpoint lock_walk (walk : list (string * list string)) : Action :=
  fun w =>
    match walk with
    | [] => (w, [])
    | (root, files) :: walk' =>
        let '(w1, out1) := lock_files_in root files w in
        let '(w2, out2) := lock_walk walk' w1 in
        (w2, out1 ++ out2)
    end.

Definition lock_directory (self : ResponseEngine) (dir_path : string) : Action :=
  fun w =>
    if dry_run self then (w, [MsgLockingDirectory dir_path])
    else
      let '(w1, out1) := lock_walk (os_walk w dir_path) w in
      let w2 := match os_chmod dir_path 365 w1 with   (* 0o555 *)
                | Some w' => w'
                | None => w1
                end in
      (w2, MsgLockingDirectory dir_path :: out1).

(** The first open file of a process under [dir_path], if any. *)
Definition first_open_under (dir_path : string) (files : list string) : option string :=
  List.find (String.prefix dir_path) files.

Fixpoint kill_matching (self : ResponseEngine) (dir_path : string)
    (procs : list ProcInfo) : Action :=
  fun w =>
    match procs with
    | [] => (w, [])
    | proc :: procs' =>
        let '(w1, out1) :=
          match open_files proc with
          | Some files =>
              match first_open_under dir_path files with
              | Some f =>
                  let '(w', out) := kill_process self (pid proc) w in
                  (w', MsgKillingOpen (pid proc) f :: out)
              | None => (w, [])
              end
          | None => (w, [])
          end in
        let '(w2, out2) := kill_matching self dir_path procs' w1 in
        (w2, out1 ++ out2)
    end.

Definition kill_offending_process (self : ResponseEngine) (dir_path : string) : Action :=
  fun w => kill_matching self dir_path (process_iter w) w.

(** Method dispatch for a call made by the detector. *)
Definition perform (self : ResponseEngine) (c : ResponseCall) : Action :=
  match c with
  | lock_file_call p => lock_file self p
  | quarantine_file_call p => quarantine_file self p
  | lock_directory_call d => lock_directory self d
  | kill_offending_process_call d => kill_offending_process self d
  end.

(** Running a trace of effects: [print]s go to the output, calls are
    performed by the engine, in order. *)
Fixpoint run_effects (self : ResponseEngine) (effs : list Effect) : Action :=
  fun w =>
    match effs with
    | [] => (w, [])
    | Print l :: effs' =>
        let '(w', out) := run_effects self effs' w in (w', l :: out)
    | Invoke c :: effs' =>
        let '(w1, out1) := perform self c w in
        let '(w2, out2) := run_effects self effs' w1 in
        (w2, out1 ++ out2)
    | _ :: effs' => run_effects self effs' w
    end.

End Engine.
End Response.


(** ** detector.py *)

(** An [IsolationForest] object: its constructor arguments and, once
    [fit] has returned, its fitted state. *)
Record IsolationForest `{Sklearn} := {
  contamination : Q;
  random_state : Z;
  fitted : option Forest
}.

(** One element of [event_queue]: [(current_time, feature_vector, path)]. *)
Definition QEntry : Type := Time.datetime * FeatureVector * option string.

Definition entry_time (e : QEntry) : Time.datetime := e.1.1.
Definition entry_path (e : QEntry) : option string := e.2.

Record Detector `{Sklearn} := {
  threshold : Z;
  time_window : Z;
  event_queue : list QEntry;
  samples : list FeatureVector;
  max_samples : nat;               (* maxlen of the samples deque *)
  train_interval : Z;
  last_trained : Time.datetime;
  model : option IsolationForest;
  response_engine : option ResponseEngine
}.

(** What a call leaves behind: the object, the effects in order, and the
    exception if the call raised. *)
Record Result `{Sklearn} := {
  after : Detector;
  effects : list Effect;
  raised : option Exn
}.

Module Det.
Section Detector.
Context `{Sklearn} `{PathLib}.

Definition set_event_queue (q : list QEntry) (d : Detector) : Detector :=
  {| threshold := threshold d; time_window := time_window d;
     event_queue := q; samples := samples d; max_samples := max_samples d;
     train_interval := train_interval d; last_trained := last_trained d;
     model := model d; response_engine := response_engine d |}.

Definition set_samples (s : list FeatureVector) (d : Detector) : Detector :=
  {| threshold := threshold d; time_window := time_window d;
     event_queue := event_queue d; samples := s; max_samples := max_samples d;
     train_interval := train_interval d; last_trained := last_trained d;
     model := model d; response_engine := response_engine d |}.

Definition set_last_trained (t : Time.datetime) (d : Detector) : Detector :=
  {| threshold := threshold d; time_window := time_window d;
     event_queue := event_queue d; samples := samples d; max_samples := max_samples d;
     train_interval := train_interval d; last_trained := t;
     model := model d; response_engine := response_engine d |}.

Definition set_model (m : option IsolationForest) (d : Detector) : Detector :=
  {| threshold := threshold d; time_window := time_window d;
     event_queue := event_queue d; samples := samples d; max_samples := max_samples d;
     train_interval := train_interval d; last_trained := last_trained d;
     model := m; response_engine := response_engine d |}.

(** [__init__], constructed at time [now]. *)
Definition init (threshold time_window train_interval : Z) (max_samples : nat)
    (response_engine : option ResponseEngine) (now : Time.datetime) : Detector :=
  {| threshold := threshold; time_window := time_window;
     event_queue := []; samples := []; max_samples := max_samples;
     train_interval := train_interval; last_trained := now;
     model := None; response_engine := response_engine |}.

(** [deque(maxlen=n).append(x)]: the oldest elements fall off the left. *)
Definition deque_append {A} (maxlen : nat) (dq : list A) (x : A) : list A :=
  let dq' := dq ++ [x] in
  drop (length dq' - maxlen)%nat dq'.

(** [np.array(self.samples)] builds a matrix when the samples all have
    the same length; on rows of different lengths it raises [ValueError]
    (NumPy 1.24 and later). *)
Definition rectangular (X : list FeatureVector) : bool :=
  match X with
  | [] => true
  | x :: X' => forallb (fun y => Nat.eqb (length y) (length x)) X'
  end.

(** [_train_model]. The sample matrix and the contamination are computed
    before the new estimator is stored in [self.model], and the estimator
    is stored before [fit] runs on it. *)
Definition _train_model (self : Detector) : Detector * option Exn :=
  if Z.of_nat (length (samples self)) <? threshold self * 2 then (self, None)
  else if negb (rectangular (samples self)) then (self, Some ValueError)
  else
    match length (samples self) with
    | O => (self, Some ZeroDivisionError)
    | S _ =>
        let c := Qmake (threshold self) (Pos.of_nat (length (samples self))) in
        match forest_fit c 42 (samples self) with
        | Some f =>
            (set_model (Some {| contamination := c; random_state := 42;
                                fitted := Some f |}) self, None)
        | None =>
            (set_model (Some {| contamination := c; random_state := 42;
                                fitted := None |}) self, Some FitError)
        end
    end.

(** The eviction loop of [add_event]: pop from the left while the head's
    [.seconds] age exceeds the window. *)
Fixpoint evict (now : Time.datetime) (time_window : Z) (q : list QEntry) : list QEntry :=
  match q with
  | [] => []
  | e :: q' =>
      if time_window <? Time.timedelta_seconds now (entry_time e)
      then evict now time_window q'
      else q
  end.

(** Lines 43-49 of [add_event]: store the event and the sample, then evict. *)
Definition record_event (now : Time.datetime) (feature_vector : FeatureVector)
    (path : option string) (self : Detector) : Detector :=
  let q := event_queue self ++ [(now, feature_vector, path)] in
  let s := deque_append (max_samples self) (samples self) feature_vector in
  set_event_queue (evict now (time_window self) q) (set_samples s self).

(** Lines 51-54 of [add_event]: the periodic retrain. *)
Definition retrain_due (now : Time.datetime) (self : Detector) : bool :=
  train_interval self <? Time.timedelta_seconds now (last_trained self).

Definition maybe_retrain (now : Time.datetime) (self : Detector) : Detector * option Exn :=
  if retrain_due now self then
    match _train_model self with
    | (self', None) => (set_last_trained now self', None)
    | (self', Some e) => (self', Some e)
    end
  else (self, None).

(** Lines 56-62 of [add_event]: no verdict while [self.model is None],
    otherwise [predict] on the one point. [predict] on an estimator that
    was never fitted raises [NotFittedError]; on a fitted one it returns
    the label or raises ([PredictError]). *)
Inductive Verdict := Unknown | Normal | Anomalous.

Definition classify (self : Detector) (feature_vector : FeatureVector) : Verdict + Exn :=
  match model self with
  | None => inl Unknown
  | Some m =>
      match fitted m with
      | None => inr NotFittedError
      | Some f =>
          match forest_predict f feature_vector with
          | None => inr PredictError
          | Some prediction =>
              if prediction =? -1 then inl Anomalous else inl Normal
          end
      end
  end.

Definition is_ml_anomaly (v : Verdict) : bool :=
  match v with Anomalous => true | _ => false end.

(** Python truthiness of a path: [None] and [''] are false. *)
Definition truthy (path : option string) : option string :=
  match path with
  | Some p => if decide (p = "") then None else Some p
  | None => None
  end.

(** [set(p for _, _, p in self.event_queue if p)]. *)
Definition affected_files (q : list QEntry) : gset string :=
  list_to_set (omap (fun e => truthy (entry_path e)) q).

(** [_handle_threat]. The set is iterated in the order [elements] gives. *)
Definition _handle_threat (path : option string) (event_count : Z)
    (self : Detector) : Detector * list Effect :=
  match response_engine self, truthy path with
  | Some _, Some p =>
      let affected := elements (affected_files (event_queue self)) in
      let medium :=
        if threshold self <=? event_count then
          Print (MsgThreatMedium (length affected))
            :: map (fun f => Invoke (lock_file_call f)) affected
        else [] in
      if threshold self * 2 <=? event_count then
        let dir_path := dirname p in
        (set_event_queue [] self,
         Print MsgDebugUsing :: medium ++
         Print (MsgThreatHigh (length affected))
           :: map (fun f => Invoke (quarantine_file_call f)) affected ++
         [Invoke (lock_directory_call dir_path);
          Invoke (kill_offending_process_call dir_path)])
      else (self, Print MsgDebugUsing :: medium)
  | _, _ => (self, [Print MsgDebugUsing; Print MsgWarnNoEngine])
  end.

(** [add_event], with the clock reading [now] of its first line. *)
Definition add_event (now : Time.datetime) (feature_vector : FeatureVector)
    (path : option string) (self : Detector) : Result :=
  let self1 := record_event now feature_vector path self in
  match maybe_retrain now self1 with
  | (self2, Some e) => {| after := self2; effects := []; raised := Some e |}
  | (self2, None) =>
      match classify self2 feature_vector with
      | inr e => {| after := self2; effects := []; raised := Some e |}
      | inl v =>
          let out := if is_ml_anomaly v then [Print MsgMLAnomaly] else [] in
          let count := Z.of_nat (length (event_queue self2)) in
          let is_burst := threshold self2 <=? count in
          if is_ml_anomaly v || is_burst then
            let '(self3, out') := _handle_threat path count self2 in
            {| after := self3; effects := out ++ out'; raised := None |}
          else {| after := self2; effects := out; raised := None |}
      end
  end.

(** A run of [add_event] calls, stopping at the first one that raises. *)
Fixpoint add_events (evs : list (Time.datetime * FeatureVector * option string))
    (self : Detector) : Result :=
  match evs with
  | [] => {| after := self; effects := []; raised := None |}
  | (now, fv, path) :: evs' =>
      let r := add_event now fv path self in
      match raised r with
      | Some e => r
      | None =>
          let r' := add_events evs' (after r) in
          {| after := after r'; effects := effects r ++ effects r';
             raised := raised r' |}
      end
  end.

End Detector.
End Det.


(** ** idps.py *)

(** The watchdog event classes the handler tells apart; [OtherEvent]
    stands for every other class (directory events among them). *)
Inductive EventClass :=
  | FileCreatedEvent
  | FileDeletedEvent
  | FileMovedEvent
  | FileModifiedEvent
  | OtherEvent.

Record FileSystemEvent := {
  event_class : EventClass;
  src_path : string;
  dest_path : string
}.

Record IDPSEventHandler `{Sklearn} := {
  ignore_patterns : list string;
  anomaly_detector : option Detector
}.

Record HandlerResult `{Sklearn} := {
  handler_after : IDPSEventHandler;
  trace : list Effect;
  handler_raised : option Exn
}.

Module Handler.
Section Handler.
Context `{Sklearn} `{PathLib} `{OS}.

Definition _get_event_type (event : FileSystemEvent) : Z :=
  match event_class event with
  | FileCreatedEvent => 0
  | FileDeletedEvent => 1
  | FileMovedEvent => 2
  | FileModifiedEvent => 3
  | OtherEvent => -1
  end.

Definition _get_event_vector (w : World) (event : FileSystemEvent) : option FeatureVector :=
  let event_type := _get_event_type event in
  if event_type =? -1 then None
  else
    let file_size :=
      if os_path_exists w (src_path event) then os_path_getsize w (src_path event)
      else 0 in
    Some [event_type; file_size].

Definition should_ignore (self : IDPSEventHandler) (path : string) : bool :=
  existsb (fnmatch path) (ignore_patterns self).

Definition set_detector (d : Detector) (self : IDPSEventHandler) : IDPSEventHandler :=
  {| ignore_patterns := ignore_patterns self; anomaly_detector := Some d |}.

(** The part the four callbacks share after their ignore test: extract
    the feature vector, hand it to the detector, then report the event. *)
Definition handle (what : string) (dest : string) (self : IDPSEventHandler)
    (now : Time.datetime) (w : World) (event : FileSystemEvent) : HandlerResult :=
  let report := [Print (MsgAlert what (src_path event) dest);
                 GuiLog what (src_path event) dest;
                 LogEvent what (src_path event) dest] in
  match _get_event_vector w event with
  | None => {| handler_after := self; trace := report; handler_raised := None |}
  | Some feature_vector =>
      match anomaly_detector self with
      | None => {| handler_after := self; trace := []; handler_raised := Some AttributeError |}
      | Some d =>
          let r := Det.add_event now feature_vector (Some (src_path event)) d in
          match raised r with
          | Some e => {| handler_after := set_detector (after r) self;
                         trace := effects r; handler_raised := Some e |}
          | None => {| handler_after := set_detector (after r) self;
                       trace := effects r ++ report; handler_raised := None |}
          end
      end
  end.

Definition dropped (self : IDPSEventHandler) : HandlerResult :=
  {| handler_after := self; trace := []; handler_raised := None |}.

Definition on_created (self : IDPSEventHandler) (now : Time.datetime) (w : World)
    (event : FileSystemEvent) : HandlerResult :=
  if should_ignore self (src_path event) then dropped self
  else handle "created" "" self now w event.

Definition on_deleted (self : IDPSEventHandler) (now : Time.datetime) (w : World)
    (event : FileSystemEvent) : HandlerResult :=
  if should_ignore self (src_path event) then dropped self
  else handle "deleted" "" self now w event.

Definition on_moved (self : IDPSEventHandler) (now : Time.datetime) (w : World)
    (event : FileSystemEvent) : HandlerResult :=
  if should_ignore self (src_path event) && should_ignore self (dest_path event)
  then dropped self
  else handle "moved" (dest_path event) self now w event.

Definition on_modified (self : IDPSEventHandler) (now : Time.datetime) (w : World)
    (event : FileSystemEvent) : HandlerResult :=
  if should_ignore self (src_path event) then dropped self
  else handle "modified" "" self now w event.

(** The callback watchdog's [dispatch] selects for an event. *)
Inductive Callback := OnCreated | OnDeleted | OnMoved | OnModified.

Definition callback (c : Callback) :=
  match c with
  | OnCreated => on_created
  | OnDeleted => on_deleted
  | OnMoved => on_moved
  | OnModified => on_modified
  end.

(** The operating-system state after the calls of a trace have run on the
    engine attached to the handler's detector. *)
Definition world_after (self : IDPSEventHandler) (effs : list Effect) (w : World) : World :=
  match anomaly_detector self with
  | Some d =>
      match response_engine d with
      | Some eng => (Response.run_effects eng effs w).1
      | None => w
      end
  | None => w
  end.

End Handler.
End Handler.


(** ** Instances of the library interfaces *)

(** [posixpath] and [fnmatch] on POSIX, where [normcase] is the identity. *)
Module Posix.

Definition is_sep (c : Ascii.ascii) : bool := Ascii.eqb c "/"%char.

(** [p[:p.rfind('/') + 1]] *)
Fixpoint head_to_last_sep (p : string) : string :=
  match p with
  | EmptyString => EmptyString
  | String c r =>
      match head_to_last_sep r with
      | EmptyString => if is_sep c then String c EmptyString else EmptyString
      | h => String c h
      end
  end.

Fixpoint all_sep (p : string) : bool :=
  match p with
  | EmptyString => true
  | String c r => is_sep c && all_sep r
  end.

(** [p.rstrip('/')] *)
Fixpoint rstrip_sep (p : string) : string :=
  match p with
  | EmptyString => EmptyString
  | String c r =>
      match rstrip_sep r with
      | EmptyString => if is_sep c then EmptyString else String c EmptyString
      | r' => String c r'
      end
  end.

Definition dirname (p : string) : string :=
  let head := head_to_last_sep p in
  if negb (String.eqb head "") && negb (all_sep head) then rstrip_sep head else head.

Definition basename (p : string) : string :=
  let i := String.length (head_to_last_sep p) in
  String.substring i (String.length p - i) p.

Definition ends_with_sep (p : string) : bool :=
  match String.get (String.length p - 1) p with
  | Some c => is_sep c
  | None => false
  end.

(** [os.path.join(a, b)] *)
Definition join (a b : string) : string :=
  if String.prefix "/" b then b
  else if String.eqb a "" || ends_with_sep a then a +:+ b
  else a +:+ "/" +:+ b.

(** [fnmatch.fnmatchcase] on patterns built from literal characters, [*]
    and [?]; bracket classes are not interpreted. *)
Fixpoint glob (pat : string) : string → bool :=
  match pat with
  | EmptyString => fun s => String.eqb s ""
  | String c pat' =>
      if Ascii.eqb c "*"%char then
        fix star (s : string) : bool :=
          glob pat' s || match s with
                         | EmptyString => false
                         | String _ s' => star s'
                         end
      else if Ascii.eqb c "?"%char then
        fun s => match s with
                 | EmptyString => false
                 | String _ s' => glob pat' s'
                 end
      else
        fun s => match s with
                 | EmptyString => false
                 | String d s' => Ascii.eqb c d && glob pat' s'
                 end
  end.

Definition fnmatch (name pat : string) : bool := glob pat name.

Definition pathlib : PathLib :=
  Build_PathLib dirname basename join fnmatch.

End Posix.

(** A small estimator to run the detector on concrete inputs: it
    memorises the training points and calls a point an outlier when it is
    not among them. Its [fit] makes the two checks of sklearn's that a
    detector can fail: the contamination must lie in (0, 0.5], and the
    matrix must have at least one column. Its [predict] checks the point
    against the column count of the training matrix. *)
Module Memo.

Definition valid_contamination (c : Q) : bool :=
  negb (Qle_bool c 0%Q) && Qle_bool c (1 # 2)%Q.

Definition has_features (X : list FeatureVector) : bool :=
  forallb (fun x => negb (Nat.eqb (length x) 0)) X.

Definition fit (c : Q) (seed : Z) (X : list FeatureVector) : option (list FeatureVector) :=
  if valid_contamination c && has_features X then Some X else None.

Definition width (X : list FeatureVector) : nat :=
  match X with
  | [] => 0
  | x :: _ => length x
  end.

Definition predict (f : list FeatureVector) (x : FeatureVector) : option Z :=
  if negb (Nat.eqb (length x) (width f)) then None
  else Some (if bool_decide (x ∈ f) then 1 else -1).

Definition sklearn : Sklearn :=
  {| Forest := list FeatureVector; forest_fit := fit; forest_predict := predict |}.

End Memo.

(** A small operating system to run the engine on concrete inputs: a flat
    table of nodes keyed by path and a list of processes. *)
Module SimOS.

Record Node := {
  is_dir : bool;
  st_mode : Z;
  st_size : Z
}.

Record SimWorld := {
  nodes : gmap string Node;
  procs : list ProcInfo
}.

Definition exists_ (w : SimWorld) (p : string) : bool :=
  bool_decide (is_Some (nodes w !! p)).

Definition getsize (w : SimWorld) (p : string) : Z :=
  match nodes w !! p with
  | Some n => st_size n
  | None => 0
  end.

Definition chmod (p : string) (m : Z) (w : SimWorld) : option SimWorld :=
  match nodes w !! p with
  | Some n =>
      Some {| nodes := <[p := {| is_dir := is_dir n; st_mode := m; st_size := st_size n |}]> (nodes w);
              procs := procs w |}
  | None => None
  end.

Definition move (src dst : string) (w : SimWorld) : option SimWorld :=
  match nodes w !! src with
  | Some n => Some {| nodes := <[dst := n]> (delete src (nodes w)); procs := procs w |}
  | None => None
  end.

Definition under (top d : string) : bool :=
  bool_decide (d = top) || String.prefix (top +:+ "/") d.

Definition walk (w : SimWorld) (top : string) : list (string * list string) :=
  let all := map_to_list (nodes w) in
  let files_of (d : string) :=
    omap (fun pn : string * Node =>
            if negb (is_dir pn.2) && bool_decide (Posix.dirname pn.1 = d)
            then Some (Posix.basename pn.1) else None) all in
  omap (fun dn : string * Node =>
          if is_dir dn.2 && under top dn.1 then Some (dn.1, files_of dn.1) else None) all.

Definition has_pid (w : SimWorld) (p : Z) : bool :=
  existsb (fun pr => pid pr =? p) (procs w).

Definition terminate (p : Z) (w : SimWorld) : option SimWorld :=
  if has_pid w p then
    Some {| nodes := nodes w; procs := List.filter (fun pr => negb (pid pr =? p)) (procs w) |}
  else None.

Definition os : OS :=
  {| World := SimWorld; os_path_exists := exists_; os_path_getsize := getsize;
     os_chmod := chmod; shutil_move := move; os_walk := walk;
     process_iter := procs; psutil_Process := has_pid; proc_terminate := terminate |}.

End SimOS.


(** ** Vocabulary of the properties *)

(** Age of a queue entry in whole seconds, and the test the eviction loop
    applies to it when the entry is less than a day old. *)
Definition age_seconds (now : Time.datetime) (e : QEntry) : Z :=
  Time.whole_seconds (now - entry_time e).

Definition fresh (now : Time.datetime) (time_window : Z) (e : QEntry) : bool :=
  age_seconds now e <=? time_window.

Definition time_le (e1 e2 : QEntry) : Prop := entry_time e1 <= entry_time e2.

Definition recent (now : Time.datetime) (e : QEntry) : Prop :=
  0 <= now - entry_time e < Time.days 1.

(** The count the specification speaks of: the events recorded so far
    with [now - timestamp <= timeWindowSeconds]. *)
Definition in_window (now : Time.datetime) (time_window : Z) (e : QEntry) : bool :=
  now - entry_time e <=? Time.seconds time_window.

Definition recorded_in_window (now : Time.datetime) (time_window : Z)
    (evs : list QEntry) : nat :=
  length (List.filter (in_window now time_window) evs).

(** A run of the recording step of [add_event] alone, and the clock
    reading at its end. *)
Definition record_all `{Sklearn} (evs : list QEntry) (d : Detector) : Detector :=
  fold_left (fun d e => Det.record_event (entry_time e) e.1.2 (entry_path e) d) evs d.

Definition end_time (t : Time.datetime) (evs : list QEntry) : Time.datetime :=
  fold_left (fun _ e => entry_time e) evs t.

(** Events in time order from [t] on, each less than a day minus the
    window (and a second) after the one before. *)
Fixpoint paced (time_window : Z) (t : Time.datetime) (evs : list QEntry) : Prop :=
  match evs with
  | [] => True
  | e :: evs' =>
      0 <= entry_time e - t ∧
      entry_time e - t < Time.days 1 - Time.seconds (time_window + 1) ∧
      paced time_window (entry_time e) evs'
  end.

(** The response-engine calls of a trace, in order. *)
Definition calls (effs : list Effect) : list ResponseCall :=
  omap (fun e => match e with Invoke c => Some c | _ => None end) effs.

(** The configuration of a detector: what [__init__] fixes. *)
Definition same_config `{Sklearn} (d d' : Detector) : Prop :=
  threshold d' = threshold d ∧ time_window d' = time_window d ∧
  train_interval d' = train_interval d ∧ max_samples d' = max_samples d ∧
  response_engine d' = response_engine d.

(** The contamination [_train_model] constructs the estimator with. *)
Definition fit_contamination `{Sklearn} (d : Detector) : Q :=
  Qmake (threshold d) (Pos.of_nat (length (samples d))).

(** The stored model, if any, has been fitted. *)
Definition well_trained `{Sklearn} (d : Detector) : Prop :=
  match model d with
  | None => True
  | Some m => is_Some (fitted m)
  end.

(** What [kill_offending_process] prints for one process in dry-run mode. *)
Definition dry_kill_log `{OS} (w : World) (dir_path : string) (proc : ProcInfo) : list LogLine :=
  match open_files proc with
  | Some files =>
      match Response.first_open_under dir_path files with
      | Some f =>
          MsgKillingOpen (pid proc) f
            :: (if psutil_Process w (pid proc) then [MsgKilling (pid proc)] else [ErrKill])
      | None => []
      end
  | None => []
  end.

(** A path matches some configured ignore pattern. *)
Definition matches_ignore `{Sklearn} `{PathLib} (self : IDPSEventHandler)
    (path : string) : Prop :=
  ∃ pat, pat ∈ ignore_patterns self ∧ fnmatch path pat = true.

(** ** Vocabulary of the further properties *)

(** The last [n] elements of a list. *)
Definition take_last {A} (n : nat) (l : list A) : list A :=
  drop (length l - n)%nat l.

(** The feature vectors of a list of events, in order. *)
Definition feature_vectors (evs : list QEntry) : list FeatureVector :=
  map (fun e => e.1.2) evs.


(** The process and the open file [kill_offending_process] selects for
    one entry of the process table, if any. *)
Definition kill_target (dir_path : string) (proc : ProcInfo) : option (Z * string) :=
  match open_files proc with
  | Some files =>
      match Response.first_open_under dir_path files with
      | Some f => Some (pid proc, f)
      | None => None
      end
  | None => None
  end.

(** The number of files an [os.walk] result lists. *)
Definition walked_files (walk : list (string * list string)) : nat :=
  sum_list (map (fun rf => length rf.2) walk).

(** The ignore test each callback starts with. *)
Definition callback_ignores `{Sklearn} `{PathLib} (c : Handler.Callback)
    (self : IDPSEventHandler) (event : FileSystemEvent) : bool :=
  match c with
  | Handler.OnMoved =>
      Handler.should_ignore self (src_path event) &&
      Handler.should_ignore self (dest_path event)
  | _ => Handler.should_ignore self (src_path event)
  end.

(** What a callback reports about an event once the detector is done. *)
Definition callback_what (c : Handler.Callback) : string :=
  match c with
  | Handler.OnCreated => "created"
  | Handler.OnDeleted => "deleted"
  | Handler.OnMoved => "moved"
  | Handler.OnModified => "modified"
  end.

Definition callback_dest (c : Handler.Callback) (event : FileSystemEvent) : string :=
  match c with
  | Handler.OnMoved => dest_path event
  | _ => ""
  end.

Definition report (c : Handler.Callback) (event : FileSystemEvent) : list Effect :=
  [Print (MsgAlert (callback_what c) (src_path event) (callback_dest c event));
   GuiLog (callback_what c) (src_path event) (callback_dest c event);
   LogEvent (callback_what c) (src_path event) (callback_dest c event)].

(** The lines a trace writes to the log file. *)
Definition log_writes (effs : list Effect) : list (string * string * string) :=
  omap (fun e => match e with LogEvent k s d => Some (k, s, d) | _ => None end) effs.

(** An effect the detector can produce: a [print] or an engine call. *)
Definition detector_effect (e : Effect) : Prop :=
  match e with
  | Print _ | Invoke _ => True
  | _ => False
  end.

(** The shape of the feature vectors the handler builds: the code of a
    known event class and a size. *)
Definition handler_vector (fv : FeatureVector) : Prop :=
  ∃ code size, fv = [code; size] ∧ 0 <= code <= 3.

(** ** Concrete scenarios *)

(** The inputs the examples at the end of the file run on: detectors built
    at time 0 with a 60 s window and a 30 s train interval, over the
    memorising estimator, POSIX paths and the small operating system. *)
Module Scenario.

#[local] Existing Instance Memo.sklearn.
#[local] Existing Instance Posix.pathlib.
#[local] Existing Instance SimOS.os.

Definition engine : ResponseEngine :=
  {| quarantine_dir := "./quarantine"; dry_run := false |}.

Definition dry_engine : ResponseEngine :=
  {| quarantine_dir := "./quarantine"; dry_run := true |}.

Definition detector (threshold : Z) (max_samples : nat)
    (eng : option ResponseEngine) : Detector :=
  Det.init threshold 60 30 max_samples eng 0.

(** A modification of [path], of size [size], [s] seconds after time 0. *)
Definition modified (s size : Z) (path : string) : QEntry :=
  (Time.seconds s, [3; size], Some path).

(** Three modifications of one file, one second apart. *)
Definition burst3 : list QEntry :=
  [modified 1 10 "/w/a"; modified 2 10 "/w/a"; modified 3 10 "/w/a"].

(** [n] modifications of one file, a quarter of a second apart, the
    last one at [last] microseconds. *)
Fixpoint quarter_burst (n : nat) (last : Z) : list QEntry :=
  match n with
  | O => []
  | S n' => quarter_burst n' (last - 250000) ++ [(last, [3; 10], Some "/w/a")]
  end.

(** Two files modified one second apart. *)
Definition two_files : list QEntry :=
  [modified 1 10 "/w/a"; modified 2 10 "/w/b"].

(** A detector with a two-sample buffer after three events: trained at
    31 s on the first two samples. *)
Definition trained : Result :=
  Det.add_events [modified 1 10 "/w/a"; modified 31 20 "/w/a"; modified 40 20 "/w/a"]
    (detector 1 2 (Some engine)).

(** Two events whose feature vectors differ in length: with both in the
    buffer the samples are no longer a matrix. *)
Definition ragged_events : list QEntry :=
  [modified 1 10 "/w/a"; (Time.seconds 31, [3], Some "/w/a")].

(** Two events whose feature vectors are empty: the samples are a matrix
    without columns, which [fit] refuses. *)
Definition featureless_events : list QEntry :=
  [(Time.seconds 1, [], Some "/w/a"); (Time.seconds 31, [], Some "/w/a")].


(** A world with one directory, one file in it, and one process holding
    the file open. *)
Definition world : SimOS.SimWorld :=
  {| SimOS.nodes :=
       <["/w" := {| SimOS.is_dir := true; SimOS.st_mode := 493; SimOS.st_size := 0 |}]>
         {["/w/a" := {| SimOS.is_dir := false; SimOS.st_mode := 420; SimOS.st_size := 10 |}]};
     SimOS.procs := [{| pid := 7; open_files := Some ["/w/a"] |}] |}.

(** The handler of [main]: [*.tmp] and [*.log] are ignored. *)
Definition handler : IDPSEventHandler :=
  {| ignore_patterns := ["*.tmp"; "*.log"];
     anomaly_detector := Some (detector 10 1000 (Some engine)) |}.

Definition created_log : FileSystemEvent :=
  {| event_class := FileCreatedEvent; src_path := "/w/x.log"; dest_path := "" |}.

Definition moved_tmp_to_txt : FileSystemEvent :=
  {| event_class := FileMovedEvent; src_path := "/w/a.tmp"; dest_path := "/w/a.txt" |}.

Definition moved_tmp_to_log : FileSystemEvent :=
  {| event_class := FileMovedEvent; src_path := "/w/a.tmp"; dest_path := "/w/a.log" |}.

(** A directory event, of a class the handler does not know. *)
Definition dir_created : FileSystemEvent :=
  {| event_class := OtherEvent; src_path := "/w/sub"; dest_path := "" |}.

(** A modification of the file of [world]. *)
Definition modified_a : FileSystemEvent :=
  {| event_class := FileModifiedEvent; src_path := "/w/a"; dest_path := "" |}.

(** A process holding a file of the sibling directory [/w2] open. *)
Definition neighbour : ProcInfo :=
  {| pid := 9; open_files := Some ["/w2/x"] |}.

(** The events of [trained]. *)
Definition training_events : list QEntry :=
  [modified 1 10 "/w/a"; modified 31 20 "/w/a"; modified 40 20 "/w/a"].

End Scenario.


(** * Properties *)

(** ** Arithmetic of [timedelta.seconds] *)

Lemma timedelta_seconds_range a b :
  0 <= Time.timedelta_seconds a b < Time.sec_per_day.
Proof.
  unfold Time.timedelta_seconds, Time.sec_per_day.
  apply Z.mod_pos_bound. lia.
Qed.

(** Forwards in time and within a day, [.seconds] is the whole-second age. *)
Lemma timedelta_seconds_small a b :
  0 <= a - b < Time.days 1 ->
  Time.timedelta_seconds a b = Time.whole_seconds (a - b).
Proof.
  unfold Time.timedelta_seconds, Time.whole_seconds, Time.days,
    Time.sec_per_day, Time.usec_per_sec.
  intros Hr. apply Z.mod_small. split.
  - apply Z.div_pos; lia.
  - apply Z.div_lt_upper_bound; lia.
Qed.

Lemma whole_seconds_mono x y :
  x <= y -> Time.whole_seconds x <= Time.whole_seconds y.
Proof.
  unfold Time.whole_seconds, Time.usec_per_sec. intros.
  apply Z.div_le_mono; lia.
Qed.

Lemma whole_seconds_le x n :
  Time.whole_seconds x <= n <-> x < Time.seconds (n + 1).
Proof.
  unfold Time.whole_seconds, Time.seconds, Time.usec_per_sec.
  pose proof (Z.div_mod x 1000000 ltac:(lia)) as Hdm.
  pose proof (Z.mod_pos_bound x 1000000 ltac:(lia)) as Hm.
  split; intros Hx; [lia |].
  assert (x / 1000000 < n + 1); [| lia].
  apply Z.div_lt_upper_bound; lia.
Qed.

(** ** The sliding window *)

Lemma filter_fresh_all now tw q :
  Forall (fun e => fresh now tw e = true) q -> List.filter (fresh now tw) q = q.
Proof.
  induction 1 as [| e q He _ IH]; simpl; [done |].
  rewrite He, IH. done.
Qed.

(** On a time-ordered queue of entries less than a day old, the eviction
    loop keeps exactly the entries that are [fresh]. *)
Lemma evict_ordered now tw q :
  StronglySorted time_le q ->
  Forall (recent now) q ->
  Det.evict now tw q = List.filter (fresh now tw) q.
Proof.
  intros Hs. induction Hs as [| e q Hs IH Hle]; intros Hr; [done |].
  apply Forall_cons in Hr as [He Hr].
  simpl. unfold fresh at 1, age_seconds.
  rewrite (timedelta_seconds_small _ _ He).
  destruct (Z.ltb_spec tw (Time.whole_seconds (now - entry_time e))) as [Hold | Hnew].
  - rewrite (proj2 (Z.leb_gt _ _) Hold). by apply IH.
  - rewrite (proj2 (Z.leb_le _ _) Hnew). f_equal.
    symmetry. apply filter_fresh_all.
    rewrite Forall_forall in Hle |- *. intros e' Hin.
    unfold fresh, age_seconds. apply Z.leb_le.
    etrans; [| exact Hnew]. apply whole_seconds_mono.
    specialize (Hle e' Hin). unfold time_le in Hle. lia.
Qed.

Lemma ordered_snoc now q e :
  StronglySorted time_le q ->
  Forall (recent now) q ->
  entry_time e = now ->
  StronglySorted time_le (q ++ [e]).
Proof.
  intros Hs Hr He. apply StronglySorted_app_2; [| done | repeat constructor].
  intros x1 x2 Hx1 Hx2. apply list_elem_of_singleton in Hx2 as ->.
  rewrite Forall_forall in Hr. specialize (Hr x1 Hx1).
  unfold time_le, recent in *. lia.
Qed.

Lemma filter_fresh_none now tw q :
  Forall (fun e => fresh now tw e = false) q -> List.filter (fresh now tw) q = [].
Proof.
  induction 1 as [| e q He _ IH]; simpl; [done |].
  rewrite He. exact IH.
Qed.

(** When the newest entry of a time-ordered queue is stale, all are. *)
Lemma filter_fresh_stale now tw q e :
  StronglySorted time_le q ->
  last q = Some e ->
  fresh now tw e = false ->
  List.filter (fresh now tw) q = [].
Proof.
  intros Hs Hl Hf. apply last_Some in Hl as [l' ->].
  apply filter_fresh_none, Forall_forall. intros x Hx.
  assert (time_le x e) as Hxe.
  { apply elem_of_app in Hx as [Hx | Hx].
    - eapply StronglySorted_app_1_elem_of; [exact Hs | exact Hx | set_solver].
    - apply list_elem_of_singleton in Hx as ->. unfold time_le. lia. }
  unfold fresh, age_seconds, time_le in *.
  apply Z.leb_gt in Hf. apply Z.leb_gt.
  eapply Z.lt_le_trans; [exact Hf |]. apply whole_seconds_mono. lia.
Qed.

(** ** Frame lemmas of the detector steps *)

Section DetectorFacts.
Context `{Sklearn} `{PathLib}.

Lemma calls_app (e1 e2 : list Effect) : calls (e1 ++ e2) = calls e1 ++ calls e2.
Proof. unfold calls. apply omap_app. Qed.

Lemma calls_invoke {A} (f : A → ResponseCall) (l : list A) :
  calls (map (fun x => Invoke (f x)) l) = map f l.
Proof. induction l as [| x l IH]; simpl; [done |]. by rewrite <- IH. Qed.

Lemma same_config_refl (d : Detector) : same_config d d.
Proof. by repeat split. Qed.

Lemma same_config_trans (d1 d2 d3 : Detector) :
  same_config d1 d2 → same_config d2 d3 → same_config d1 d3.
Proof. unfold same_config. intros (?&?&?&?&?) (?&?&?&?&?). repeat split; congruence. Qed.

Lemma record_event_config now fv path (d : Detector) :
  same_config d (Det.record_event now fv path d).
Proof. by repeat split. Qed.

Lemma record_event_model now fv path (d : Detector) :
  model (Det.record_event now fv path d) = model d ∧
  last_trained (Det.record_event now fv path d) = last_trained d.
Proof. by split. Qed.

(** [_train_model] touches nothing but [self.model]. *)
Lemma train_model_frame (d d' : Detector) e :
  Det._train_model d = (d', e) →
  same_config d d' ∧ event_queue d' = event_queue d ∧
  samples d' = samples d ∧ last_trained d' = last_trained d.
Proof.
  unfold Det._train_model. intros Ht.
  repeat case_match; simplify_eq; by repeat split.
Qed.

(** The retrain step touches nothing but [self.model] and
    [self.last_trained]. *)
Lemma maybe_retrain_frame now (d d' : Detector) e :
  Det.maybe_retrain now d = (d', e) →
  same_config d d' ∧ event_queue d' = event_queue d ∧ samples d' = samples d.
Proof.
  unfold Det.maybe_retrain. intros Hr.
  destruct (Det.retrain_due now d); [| simplify_eq; by repeat split].
  destruct (Det._train_model d) as [d1 [e1 |]] eqn:Ht; simplify_eq;
    apply train_model_frame in Ht as (Hc & Hq & Hs & _); [done |].
  split; [| done]. destruct Hc as (?&?&?&?&?). by repeat split.
Qed.

(** The state an event is escalated in: after recording and retraining. *)
Lemma escalation_state_frame now fv path (d d2 : Detector) e :
  Det.maybe_retrain now (Det.record_event now fv path d) = (d2, e) →
  same_config d d2 ∧
  event_queue d2 = event_queue (Det.record_event now fv path d) ∧
  samples d2 = samples (Det.record_event now fv path d).
Proof.
  intros Hr. apply maybe_retrain_frame in Hr as (Hc & Hq & Hs).
  split; [| done].
  eapply same_config_trans; [apply record_event_config | exact Hc].
Qed.

(** The affected set: the distinct non-empty paths of the queue. *)
Lemma affected_files_spec (q : list QEntry) (f : string) :
  f ∈ Det.affected_files q ↔ f ≠ "" ∧ ∃ e, e ∈ q ∧ entry_path e = Some f.
Proof.
  unfold Det.affected_files. rewrite elem_of_list_to_set, list_elem_of_omap.
  split.
  - intros (e & He & Ht). unfold Det.truthy in Ht.
    destruct (entry_path e) as [p |] eqn:Ep; [| done].
    case_decide; simplify_eq. eauto.
  - intros (Hf & e & He & Ep). exists e. split; [done |].
    unfold Det.truthy. rewrite Ep. by case_decide.
Qed.

Lemma truthy_Some path p : Det.truthy path = Some p → path = Some p ∧ p ≠ "".
Proof.
  unfold Det.truthy. destruct path as [q |]; [| done].
  case_decide; intros; by simplify_eq.
Qed.


Lemma handle_threat_medium path count (d : Detector) eng p :
  response_engine d = Some eng → Det.truthy path = Some p →
  threshold d <= count < 2 * threshold d →
  Det._handle_threat path count d =
    (d, Print MsgDebugUsing
        :: Print (MsgThreatMedium (length (elements (Det.affected_files (event_queue d)))))
        :: map (fun f => Invoke (lock_file_call f))
             (elements (Det.affected_files (event_queue d)))).
Proof.
  intros He Hp Hc. unfold Det._handle_threat. rewrite He, Hp.
  rewrite (proj2 (Z.leb_le (threshold d) count)) by lia.
  rewrite (proj2 (Z.leb_gt (threshold d * 2) count)) by lia. done.
Qed.

Lemma handle_threat_high path count (d : Detector) eng p :
  response_engine d = Some eng → Det.truthy path = Some p →
  2 * threshold d <= count → 0 <= count →
  Det._handle_threat path count d =
    (Det.set_event_queue [] d,
     Print MsgDebugUsing
       :: (Print (MsgThreatMedium (length (elements (Det.affected_files (event_queue d)))))
           :: map (fun f => Invoke (lock_file_call f))
                (elements (Det.affected_files (event_queue d))))
       ++ Print (MsgThreatHigh (length (elements (Det.affected_files (event_queue d)))))
       :: map (fun f => Invoke (quarantine_file_call f))
            (elements (Det.affected_files (event_queue d)))
       ++ [Invoke (lock_directory_call (dirname p));
           Invoke (kill_offending_process_call (dirname p))]).
Proof.
  intros He Hp Hc Hnn. unfold Det._handle_threat. rewrite He, Hp.
  rewrite (proj2 (Z.leb_le (threshold d) count)) by lia.
  rewrite (proj2 (Z.leb_le (threshold d * 2) count)) by lia. done.
Qed.

Lemma handle_threat_guard path count (d : Detector) :
  Det.truthy path = None ∨ response_engine d = None →
  Det._handle_threat path count d = (d, [Print MsgDebugUsing; Print MsgWarnNoEngine]).
Proof.
  unfold Det._handle_threat. intros [-> | ->]; [| done].
  by destruct (response_engine d).
Qed.

End DetectorFacts.

(** ** The claims about the detector *)

Section DetectorClaims.
Context `{Sklearn} `{PathLib}.

Lemma handle_threat_queue path count (d : Detector) :
  event_queue (Det._handle_threat path count d).1 = event_queue d ∨
  event_queue (Det._handle_threat path count d).1 = [].
Proof.
  unfold Det._handle_threat.
  destruct (response_engine d), (Det.truthy path); simpl; auto.
  destruct (threshold d * 2 <=? count); simpl; auto.
Qed.

(** [add_event] ends with the queue its recording step built, or with the
    empty queue. *)
Lemma add_event_queue now fv path (d : Detector) :
  event_queue (after (Det.add_event now fv path d)) =
    event_queue (Det.record_event now fv path d) ∨
  event_queue (after (Det.add_event now fv path d)) = [].
Proof.
  unfold Det.add_event.
  destruct (Det.maybe_retrain now (Det.record_event now fv path d))
    as [d2 e] eqn:Hr.
  apply maybe_retrain_frame in Hr as (_ & Hq & _). rewrite <- Hq.
  destruct e as [e |]; simpl; [auto |].
  destruct (Det.classify d2 fv) as [v | e]; simpl; [| auto].
  destruct (Det.is_ml_anomaly _ || _); simpl; [| auto].
  pose proof (handle_threat_queue path (Z.of_nat (length (event_queue d2))) d2) as Hh.
  destruct (Det._handle_threat path _ d2) as [d3 out]. simpl in *. exact Hh.
Qed.

Lemma record_event_queue now fv path (d : Detector) :
  0 <= time_window d →
  StronglySorted time_le (event_queue d) →
  Forall (recent now) (event_queue d) →
  event_queue (Det.record_event now fv path d) =
    List.filter (fresh now (time_window d)) (event_queue d) ++ [(now, fv, path)].
Proof.
  intros Htw Hs Hr. unfold Det.record_event. simpl.
  rewrite evict_ordered.
  - rewrite List.filter_app. simpl. unfold fresh at 2, age_seconds, entry_time.
    simpl. rewrite Z.sub_diag. unfold Time.whole_seconds.
    rewrite Z.div_0_l by done.
    by rewrite (proj2 (Z.leb_le 0 (time_window d)) Htw).
  - by apply (ordered_snoc now).
  - apply Forall_app. split; [done |]. constructor; [| done].
    unfold recent, entry_time, Time.days, Time.sec_per_day, Time.usec_per_sec.
    simpl. lia.
Qed.

(** C2 (amended). The append-and-evict step of [add_event], at clock
    reading [now], on a time-ordered queue whose entries are less than one
    day old and with a non-negative time window: the queue then holds
    exactly the previously queued entries whose age in whole seconds is at
    most [time_window], followed by the new entry, so the burst count is
    their number plus one; when the newest queued entry is more than
    [time_window] whole seconds old, only the new entry remains. The queue
    stays time-ordered, and [add_event] ends with this queue or, after a
    High escalation cleared it, with the empty one. *)
Theorem add_event_window now fv path (d : Detector) :
  0 <= time_window d →
  StronglySorted time_le (event_queue d) →
  Forall (recent now) (event_queue d) →
  let kept := List.filter (fresh now (time_window d)) (event_queue d) in
  let q' := event_queue (Det.record_event now fv path d) in
  q' = kept ++ [(now, fv, path)] ∧
  length q' = S (length kept) ∧
  (∀ e, last (event_queue d) = Some e → time_window d < age_seconds now e →
        q' = [(now, fv, path)]) ∧
  StronglySorted time_le q' ∧
  (event_queue (after (Det.add_event now fv path d)) = q' ∨
   event_queue (after (Det.add_event now fv path d)) = []).
Proof.
  intros Htw Hs Hr kept q'.
  assert (q' = kept ++ [(now, fv, path)]) as Hq
    by (by apply record_event_queue).
  split; [exact Hq |]. split; [| split; [| split]].
  - rewrite Hq, length_app. simpl. lia.
  - intros e Hl Hold. rewrite Hq. unfold kept.
    rewrite (filter_fresh_stale now _ _ e); [done | done | done |].
    unfold fresh. by apply Z.leb_gt.
  - rewrite Hq. apply (ordered_snoc now); [| | done].
    + unfold kept. clear -Hs. induction Hs as [| x q Hs IH Hle]; simpl;
        [constructor |].
      destruct (fresh now (time_window d) x); [| done].
      constructor; [done |].
      rewrite Forall_forall in Hle |- *. intros y Hy.
      apply Hle. apply list_elem_of_In. apply list_elem_of_In in Hy.
      apply List.filter_In in Hy. tauto.
    + unfold kept. rewrite Forall_forall in Hr |- *. intros y Hy.
      apply Hr. apply list_elem_of_In. apply list_elem_of_In in Hy.
      apply List.filter_In in Hy. tauto.
  - apply add_event_queue.
Qed.

(** C10. [_handle_threat] with no path ([None], or the empty string) or
    with no response engine attached: whatever the burst count, no call is
    made on any engine, the detector (its queue included) is left as it
    was, and the output is the debug line followed by the warning. *)
Theorem handle_threat_without_target path count (d : Detector) :
  path = None ∨ path = Some "" ∨ response_engine d = None →
  Det._handle_threat path count d = (d, [Print MsgDebugUsing; Print MsgWarnNoEngine]) ∧
  calls (Det._handle_threat path count d).2 = [] ∧
  event_queue (Det._handle_threat path count d).1 = event_queue d.
Proof.
  intros Hg.
  assert (Det._handle_threat path count d =
            (d, [Print MsgDebugUsing; Print MsgWarnNoEngine])) as ->; [| done].
  apply handle_threat_guard.
  destruct Hg as [-> | [-> | ->]]; auto.
Qed.

End DetectorClaims.

Section EscalationClaims.
Context `{Sklearn} `{PathLib}.

(** [add_event] once the retrain and classification steps have returned. *)
Lemma add_event_escalates now fv path (d d2 : Detector) v :
  Det.maybe_retrain now (Det.record_event now fv path d) = (d2, None) →
  Det.classify d2 fv = inl v →
  Det.add_event now fv path d =
    let out := if Det.is_ml_anomaly v then [Print MsgMLAnomaly] else [] in
    let count := Z.of_nat (length (event_queue d2)) in
    if Det.is_ml_anomaly v || (threshold d2 <=? count) then
      {| after := (Det._handle_threat path count d2).1;
         effects := out ++ (Det._handle_threat path count d2).2;
         raised := None |}
    else {| after := d2; effects := out; raised := None |}.
Proof.
  intros Hr Hc. unfold Det.add_event. rewrite Hr, Hc. simpl.
  destruct (Det.is_ml_anomaly v || _); [| done].
  by destruct (Det._handle_threat _ _ _).
Qed.

(** C1 (amended). For an incoming event whose recording, retrain and
    classification steps return, with a response engine attached and a
    non-empty path [p]: the affected set [A] is the duplicate-free list of
    the non-empty paths in the queue; when the post-insertion burst count is
    at least [threshold] and below twice [threshold], the engine calls are
    exactly [lock_file] on each path of [A], once, and the queue is kept;
    when it is at least twice [threshold], they are [lock_file] on each path
    of [A], then [quarantine_file] on each, then [lock_directory] and
    [kill_offending_process] on [dirname p], and the queue ends empty. *)
Theorem escalation_tiers now fv path p eng (d d2 : Detector) v :
  Det.maybe_retrain now (Det.record_event now fv path d) = (d2, None) →
  Det.classify d2 fv = inl v →
  response_engine d = Some eng →
  Det.truthy path = Some p →
  let count := Z.of_nat (length (event_queue d2)) in
  let A := elements (Det.affected_files (event_queue d2)) in
  let r := Det.add_event now fv path d in
  raised r = None ∧
  NoDup A ∧
  (∀ f, f ∈ A ↔ f ≠ "" ∧ ∃ e, e ∈ event_queue d2 ∧ entry_path e = Some f) ∧
  (threshold d <= count < 2 * threshold d →
     calls (effects r) = map lock_file_call A ∧
     event_queue (after r) = event_queue d2) ∧
  (2 * threshold d <= count →
     calls (effects r) =
       map lock_file_call A ++ map quarantine_file_call A ++
       [lock_directory_call (dirname p); kill_offending_process_call (dirname p)] ∧
     event_queue (after r) = []).
Proof.
  intros Hr Hc He Hp count A r.
  pose proof (escalation_state_frame _ _ _ _ _ _ Hr) as ((Ht & _ & _ & _ & He2) & _ & _).
  rewrite He in He2.
  assert (Hadd := add_event_escalates _ _ _ _ _ _ Hr Hc). simpl in Hadd.
  fold count in Hadd. fold r in Hadd.
  assert (0 <= count) as Hnn by (unfold count; lia).
  split; [| split; [| split; [| split]]].
  - rewrite Hadd. by destruct (_ || _).
  - apply NoDup_elements.
  - intros f. unfold A. rewrite elem_of_elements. apply affected_files_spec.
  - intros Hm. rewrite Hadd, Ht.
    rewrite (proj2 (Z.leb_le (threshold d) count)) by lia.
    rewrite orb_true_r. simpl.
    rewrite (handle_threat_medium _ _ _ eng p) by (rewrite ?Ht; done || lia).
    simpl. split; [| done].
    rewrite calls_app. simpl. fold A. rewrite calls_invoke.
    by destruct (Det.is_ml_anomaly v).
  - intros Hh. rewrite Hadd, Ht.
    rewrite (proj2 (Z.leb_le (threshold d) count)) by lia.
    rewrite orb_true_r. simpl.
    rewrite (handle_threat_high _ _ _ eng p) by (rewrite ?Ht; done || lia).
    simpl. split; [| done].
    rewrite calls_app. simpl. fold A.
    change (Print (MsgThreatHigh (length A)) :: ?l) with ([Print (MsgThreatHigh (length A))] ++ l).
    rewrite !calls_app, !calls_invoke. simpl.
    by destruct (Det.is_ml_anomaly v).
Qed.


End EscalationClaims.

Section Run.
Context `{Sklearn} `{PathLib}.

Lemma filter_fresh_later t t' tw (q : list QEntry) :
  t <= t' →
  Forall (fun e => entry_time e <= t) q →
  List.filter (fresh t' tw) (List.filter (fresh t tw) q) = List.filter (fresh t' tw) q.
Proof.
  intros Ht. induction 1 as [| e q He _ IH]; simpl; [done |].
  destruct (fresh t tw e) eqn:Ef; simpl; [by rewrite IH |].
  rewrite IH.
  assert (fresh t' tw e = false) as ->; [| done].
  unfold fresh, age_seconds in *. apply Z.leb_gt in Ef. apply Z.leb_gt.
  eapply Z.lt_le_trans; [exact Ef |]. apply whole_seconds_mono. lia.
Qed.

Lemma filter_fresh_sorted t tw (q : list QEntry) :
  StronglySorted time_le q → StronglySorted time_le (List.filter (fresh t tw) q).
Proof.
  induction 1 as [| x q Hs IH Hle]; simpl; [constructor |].
  destruct (fresh t tw x); [| done].
  constructor; [done |].
  rewrite Forall_forall in Hle |- *. intros y Hy.
  apply Hle, list_elem_of_In. apply list_elem_of_In, List.filter_In in Hy. tauto.
Qed.

Lemma record_all_time_window evs (d : Detector) :
  time_window (record_all evs d) = time_window d.
Proof.
  revert d. induction evs as [| e evs IH]; intros d; simpl; [done |].
  by rewrite IH.
Qed.

(** The invariant of a paced run: the queue is the window over all the
    events recorded so far. *)
Lemma record_all_window evs : ∀ (pre : list QEntry) (d : Detector) t,
  0 <= time_window d →
  event_queue d = List.filter (fresh t (time_window d)) pre →
  StronglySorted time_le pre →
  Forall (fun e => entry_time e <= t) pre →
  paced (time_window d) t evs →
  event_queue (record_all evs d) =
    List.filter (fresh (end_time t evs) (time_window d)) (pre ++ evs).
Proof.
  induction evs as [| e evs IH]; intros pre d t Htw Hq Hs Hle Hp.
  - simpl. by rewrite app_nil_r.
  - destruct e as [[te fv] path]. destruct Hp as (Hlo & Hhi & Hp).
    unfold entry_time in Hlo, Hhi, Hp. simpl in Hlo, Hhi, Hp.
    simpl record_all. simpl end_time.
    set (d1 := Det.record_event te fv path d).
    assert (event_queue d1 =
              List.filter (fresh te (time_window d)) (pre ++ [(te, fv, path)])) as Hq1.
    { unfold d1. rewrite record_event_queue; [| done | |].
      - rewrite Hq, filter_fresh_later by (done || lia).
        rewrite List.filter_app. simpl.
        unfold fresh at 3, age_seconds, entry_time. simpl.
        rewrite Z.sub_diag. unfold Time.whole_seconds.
        rewrite Z.div_0_l by done.
        by rewrite (proj2 (Z.leb_le 0 (time_window d)) Htw).
      - rewrite Hq. by apply filter_fresh_sorted.
      - rewrite Hq. apply Forall_forall. intros x Hx.
        apply list_elem_of_In, List.filter_In in Hx as [Hin Hf].
        rewrite Forall_forall in Hle.
        specialize (Hle x (proj2 (list_elem_of_In _ _) Hin)).
        unfold fresh, age_seconds in Hf. apply Z.leb_le, whole_seconds_le in Hf.
        unfold recent, Time.days, Time.seconds in *. lia. }
    rewrite cons_middle, app_assoc.
    apply (IH (pre ++ [(te, fv, path)]) d1 te); try done.
    + apply StronglySorted_app_2; [| done | repeat constructor].
      intros x1 x2 Hx1 Hx2. apply list_elem_of_singleton in Hx2 as ->.
      rewrite Forall_forall in Hle. specialize (Hle x1 Hx1).
      unfold time_le, entry_time in *. simpl. lia.
    + apply Forall_app. split.
      * eapply Forall_impl; [exact Hle |]. simpl. intros. lia.
      * repeat constructor. unfold entry_time. simpl. lia.
Qed.

(** Along a paced run of the recording step from an empty queue, the
    queue is the list of recorded events whose age in whole seconds, at
    the last event, is at most the window. *)
Lemma window_along_run evs (d : Detector) t0 :
  0 <= time_window d →
  event_queue d = [] →
  paced (time_window d) t0 evs →
  event_queue (record_all evs d) =
    List.filter (fresh (end_time t0 evs) (time_window d)) evs.
Proof.
  intros Htw Hq Hp.
  by rewrite (record_all_window evs [] d t0) by (done || constructor).
Qed.

End Run.

(** ** The claims about the model lifecycle *)

Section ModelClaims.
Context `{Sklearn} `{PathLib}.

Lemma train_model_skips (d : Detector) :
  Z.of_nat (length (samples d)) < threshold d * 2 →
  Det._train_model d = (d, None).
Proof.
  intros Hlt. unfold Det._train_model.
  by rewrite (proj2 (Z.ltb_lt _ _) Hlt).
Qed.

Lemma train_model_ragged (d : Detector) :
  threshold d * 2 <= Z.of_nat (length (samples d)) →
  Det.rectangular (samples d) = false →
  Det._train_model d = (d, Some ValueError).
Proof.
  intros Hge Hrag. unfold Det._train_model.
  by rewrite (proj2 (Z.ltb_ge _ _) Hge), Hrag.
Qed.

Lemma train_model_empty (d : Detector) :
  threshold d * 2 <= Z.of_nat (length (samples d)) →
  samples d = [] →
  Det._train_model d = (d, Some ZeroDivisionError).
Proof.
  intros Hge Hs. unfold Det._train_model.
  rewrite (proj2 (Z.ltb_ge _ _) Hge). by rewrite Hs.
Qed.

Lemma train_model_fits (d : Detector) :
  threshold d * 2 <= Z.of_nat (length (samples d)) →
  Det.rectangular (samples d) = true →
  samples d ≠ [] →
  Det._train_model d =
    (Det.set_model
       (Some {| contamination := fit_contamination d; random_state := 42;
                fitted := forest_fit (fit_contamination d) 42 (samples d) |}) d,
     match forest_fit (fit_contamination d) 42 (samples d) with
     | Some _ => None
     | None => Some FitError
     end).
Proof.
  intros Hge Hrect Hne. unfold Det._train_model, fit_contamination.
  rewrite (proj2 (Z.ltb_ge _ _) Hge), Hrect. simpl.
  destruct (samples d) as [| x s] eqn:Es; [done |].
  by destruct (forest_fit _ _ _).
Qed.

(** A training step that raises ends [add_event] on the spot. *)
Lemma add_event_training_raises now fv path (d d' : Detector) e :
  Det.maybe_retrain now (Det.record_event now fv path d) = (d', Some e) →
  Det.add_event now fv path d = {| after := d'; effects := []; raised := Some e |}.
Proof. intros Hr. unfold Det.add_event. by rewrite Hr. Qed.

(** Within [train_interval] seconds of [last_trained] the interval test
    fails. *)
Lemma retrain_not_due now (d : Detector) :
  0 <= now - last_trained d <= Time.seconds (train_interval d) →
  Det.retrain_due now d = false.
Proof.
  intros [Hlo Hhi]. unfold Det.retrain_due. apply Z.ltb_ge.
  destruct (Z.lt_ge_cases (now - last_trained d) (Time.days 1)) as [Hday | Hday].
  - rewrite timedelta_seconds_small by lia.
    apply whole_seconds_le. unfold Time.seconds, Time.usec_per_sec in *. lia.
  - pose proof (timedelta_seconds_range now (last_trained d)) as Hrange.
    unfold Time.seconds, Time.days, Time.sec_per_day, Time.usec_per_sec in *.
    lia.
Qed.

(** C3 (amended). When a retrain is due during [add_event], a training
    step that fails is neither caught nor reported: the exception leaves
    [add_event] with nothing printed, no classification and no
    escalation, after the event was queued and sampled and with
    [last_trained] left as it was. The stored model (or its absence) is
    retained when the failure comes before the estimator is built: when
    the samples do not form a matrix ([ValueError]) or the buffer is
    empty ([ZeroDivisionError]); when the fit call itself raises, the
    stored model has already been replaced by the new, unfitted
    estimator. With fewer than twice [threshold] samples the training
    returns without fitting, nothing is reported and the model is
    retained. *)
Theorem training_failure_propagates now fv path (d : Detector) :
  Det.retrain_due now d = true →
  let d1 := Det.record_event now fv path d in
  let r := Det.add_event now fv path d in
  model d1 = model d ∧
  last_trained d1 = last_trained d ∧
  (Z.of_nat (length (samples d1)) < threshold d * 2 →
     Det.maybe_retrain now d1 = (Det.set_last_trained now d1, None) ∧
     model (Det.set_last_trained now d1) = model d) ∧
  (threshold d * 2 <= Z.of_nat (length (samples d1)) →
     (Det.rectangular (samples d1) = false →
        r = {| after := d1; effects := []; raised := Some ValueError |}) ∧
     (samples d1 = [] →
        r = {| after := d1; effects := []; raised := Some ZeroDivisionError |}) ∧
     (Det.rectangular (samples d1) = true →
      samples d1 ≠ [] →
      forest_fit (fit_contamination d1) 42 (samples d1) = None →
        r = {| after :=
                 Det.set_model
                   (Some {| contamination := fit_contamination d1;
                            random_state := 42; fitted := None |}) d1;
               effects := [];
               raised := Some FitError |})).
Proof.
  intros Hdue d1 r.
  assert (Det.retrain_due now d1 = true) as Hdue1 by exact Hdue.
  split; [done |]. split; [done |]. split.
  - intros Hlt. split; [| done]. unfold Det.maybe_retrain. rewrite Hdue1.
    by rewrite train_model_skips.
  - intros Hge. split; [| split].
    + intros Hrag. apply add_event_training_raises.
      unfold Det.maybe_retrain. fold d1. rewrite Hdue1.
      by rewrite train_model_ragged.
    + intros Hs. apply add_event_training_raises.
      unfold Det.maybe_retrain. fold d1. rewrite Hdue1.
      by rewrite train_model_empty.
    + intros Hrect Hne Hfit. apply add_event_training_raises.
      unfold Det.maybe_retrain. fold d1. rewrite Hdue1.
      rewrite train_model_fits by done. by rewrite Hfit.
Qed.

(** C4 (amended). The retrain step of [add_event]: with fewer than twice
    [threshold] samples no model is fit (the stored model is untouched and
    nothing raises); a call at most [train_interval] seconds after
    [last_trained] changes nothing at all; and [last_trained] is replaced
    by the clock reading exactly when the interval test passes and the
    training step returns, whether it fitted a model or skipped the fit
    for too few samples. *)
Theorem maybe_retrain_gate now (d : Detector) :
  (Z.of_nat (length (samples d)) < threshold d * 2 →
     model (Det.maybe_retrain now d).1 = model d ∧
     (Det.maybe_retrain now d).2 = None) ∧
  (0 <= now - last_trained d <= Time.seconds (train_interval d) →
     Det.maybe_retrain now d = (d, None)) ∧
  last_trained (Det.maybe_retrain now d).1 =
    (if Det.retrain_due now d
     then match (Det._train_model d).2 with
          | None => now
          | Some _ => last_trained d
          end
     else last_trained d) ∧
  (Det.retrain_due now d = true →
   Z.of_nat (length (samples d)) < threshold d * 2 →
     Det.maybe_retrain now d = (Det.set_last_trained now d, None)).
Proof.
  split; [| split; [| split]].
  - intros Hlt. unfold Det.maybe_retrain.
    destruct (Det.retrain_due now d); [| done].
    by rewrite train_model_skips.
  - intros Hin. unfold Det.maybe_retrain. by rewrite retrain_not_due.
  - unfold Det.maybe_retrain. destruct (Det.retrain_due now d); [| done].
    destruct (Det._train_model d) as [d' [e |]] eqn:Ht; simpl; [| done].
    by apply train_model_frame in Ht as (_ & _ & _ & ->).
  - intros Hdue Hlt. unfold Det.maybe_retrain.
    by rewrite Hdue, train_model_skips.
Qed.

(** [_handle_threat] never prints the anomaly line. *)
Lemma handle_threat_no_anomaly_line path count (d : Detector) :
  Forall (fun e => e ≠ Print MsgMLAnomaly) (Det._handle_threat path count d).2.
Proof.
  assert (∀ (g : string → ResponseCall) (l : list string),
            Forall (fun e => e ≠ Print MsgMLAnomaly) (map (fun f => Invoke (g f)) l))
    as Hinv.
  { intros g l. apply Forall_forall. intros e He.
    apply list_elem_of_fmap in He as (f & -> & _). discriminate. }
  unfold Det._handle_threat.
  destruct (response_engine d), (Det.truthy path); simpl;
    try (repeat constructor; discriminate).
  destruct (threshold d <=? count), (threshold d * 2 <=? count); simpl;
    repeat first
      [ apply Hinv
      | apply Forall_nil_2
      | apply Forall_cons; split; [discriminate |]
      | apply Forall_app; split ].
Qed.

(** While the stored model is absent and the retrain step fits nothing,
    [add_event] neither raises nor flags an anomaly, and the model stays
    absent. *)
Lemma add_event_untrained now fv path (d : Detector) :
  model d = None →
  Det.retrain_due now d = false ∨
  Z.of_nat (length (samples (Det.record_event now fv path d))) < threshold d * 2 →
  raised (Det.add_event now fv path d) = None ∧
  model (after (Det.add_event now fv path d)) = None ∧
  Print MsgMLAnomaly ∉ effects (Det.add_event now fv path d).
Proof.
  intros Hm Hskip.
  set (d1 := Det.record_event now fv path d).
  assert (∃ d2, Det.maybe_retrain now d1 = (d2, None) ∧ model d2 = None)
    as (d2 & Hr & Hm2).
  { unfold Det.maybe_retrain.
    change (Det.retrain_due now d1) with (Det.retrain_due now d).
    destruct (Det.retrain_due now d) eqn:Hdue; [| by eauto].
    destruct Hskip as [? | Hlt]; [done |].
    rewrite train_model_skips by exact Hlt. by eauto. }
  assert (Det.classify d2 fv = inl Det.Unknown) as Hc
    by (unfold Det.classify; by rewrite Hm2).
  rewrite (add_event_escalates _ _ _ _ _ _ Hr Hc). simpl.
  destruct (threshold d2 <=? _); simpl.
  - split; [done |]. split.
    + unfold Det._handle_threat.
      destruct (response_engine d2), (Det.truthy path); simpl; try done.
      by destruct (threshold d2 * 2 <=? _).
    + intros Hin.
      pose proof (handle_threat_no_anomaly_line path
                    (Z.of_nat (length (event_queue d2))) d2) as Hf.
      rewrite Forall_forall in Hf. by apply (Hf _ Hin).
  - split; [done |]. split; [done |]. apply not_elem_of_nil.
Qed.

(** [_handle_threat] touches nothing but the queue. *)
Lemma handle_threat_model path count (d : Detector) :
  model (Det._handle_threat path count d).1 = model d.
Proof.
  unfold Det._handle_threat.
  destruct (response_engine d), (Det.truthy path); simpl; try done.
  by destruct (threshold d * 2 <=? count).
Qed.

(** Only a fit that raises leaves an unfitted estimator behind. *)
Lemma add_event_well_trained now fv path (d : Detector) :
  well_trained d →
  raised (Det.add_event now fv path d) ≠ Some FitError →
  well_trained (after (Det.add_event now fv path d)).
Proof.
  intros Hw. unfold Det.add_event.
  destruct (Det.maybe_retrain now (Det.record_event now fv path d))
    as [d2 oe] eqn:Hr.
  assert (oe ≠ Some FitError → well_trained d2) as Hw2.
  { unfold Det.maybe_retrain in Hr.
    destruct (Det.retrain_due now _); [| by simplify_eq].
    destruct (Det._train_model _) as [d' [e |]] eqn:Ht;
      injection Hr as <- <-; unfold Det._train_model in Ht;
      repeat case_match; simplify_eq; try done; try (intros _; exact Hw).
    intros _. unfold well_trained. simpl. by eexists. }
  destruct oe as [e |]; [exact Hw2 |].
  specialize (Hw2 ltac:(done)).
  destruct (Det.classify d2 fv) as [v | e]; [| done].
  destruct (Det.is_ml_anomaly v || _); [| done].
  pose proof (handle_threat_model path (Z.of_nat (length (event_queue d2))) d2) as Hm.
  destruct (Det._handle_threat path _ d2) as [d3 out]. simpl in *.
  intros _. unfold well_trained in *. by rewrite Hm.
Qed.

Lemma add_events_well_trained evs (d : Detector) :
  well_trained d →
  raised (Det.add_events evs d) ≠ Some FitError →
  well_trained (after (Det.add_events evs d)).
Proof.
  revert d. induction evs as [| [[now fv] path] evs IH]; intros d Hw; [done |].
  simpl. destruct (raised (Det.add_event now fv path d)) eqn:Er.
  - rewrite Er. simpl. intros Hr. apply add_event_well_trained; [done |].
    by rewrite Er.
  - simpl. intros Hr. apply IH; [| done].
    apply add_event_well_trained; [done |]. by rewrite Er.
Qed.

(** A classification that raises ends [add_event] on the spot. *)
Lemma add_event_classify_raises now fv path (d d2 : Detector) e :
  Det.maybe_retrain now (Det.record_event now fv path d) = (d2, None) →
  Det.classify d2 fv = inr e →
  Det.add_event now fv path d = {| after := d2; effects := []; raised := Some e |}.
Proof. intros Hr Hc. unfold Det.add_event. by rewrite Hr, Hc. Qed.

(** A call that ends on a failed fit leaves the unfitted estimator. *)
Lemma add_event_fit_error now fv path (d : Detector) :
  raised (Det.add_event now fv path d) = Some FitError →
  ∃ m, model (after (Det.add_event now fv path d)) = Some m ∧ fitted m = None.
Proof.
  unfold Det.add_event.
  destruct (Det.maybe_retrain now (Det.record_event now fv path d))
    as [d2 [e |]] eqn:Hr; simpl.
  - intros [= ->]. unfold Det.maybe_retrain in Hr.
    destruct (Det.retrain_due now _); [| done].
    destruct (Det._train_model _) as [d' [e' |]] eqn:Ht; [| done].
    injection Hr as Hd He. subst d' e'. unfold Det._train_model in Ht.
    repeat case_match; simplify_eq. by eexists.
  - destruct (Det.classify d2 fv) as [v | e] eqn:Hc; simpl.
    + destruct (Det.is_ml_anomaly v || _); [| done].
      by destruct (Det._handle_threat _ _ _).
    + intros [= ->]. unfold Det.classify in Hc.
      repeat case_match; simplify_eq.
Qed.

Lemma add_events_fit_error evs : ∀ d : Detector,
  raised (Det.add_events evs d) = Some FitError →
  ∃ m, model (after (Det.add_events evs d)) = Some m ∧ fitted m = None.
Proof.
  induction evs as [| [[now fv] path] evs IH]; intros d; [done |].
  simpl. destruct (raised (Det.add_event now fv path d)) as [e |] eqn:Er.
  - rewrite Er. intros [= ->]. by apply add_event_fit_error.
  - simpl. apply IH.
Qed.

(** C8 (amended). Classification over the states a detector reaches by
    [add_event] calls, starting with no model or a fitted one. While no
    estimator is stored the verdict is [Unknown] for every feature
    vector, with no anomaly flag; this is the case for as long as no
    training has fitted a model and no fit has raised. With a fitted
    model stored, classification is that model's [predict] on the input:
    anomalous for -1, normal for another label, and an exception when
    [predict] raises. After a call that ended on a fit that raised, the
    stored estimator is the unfitted one and classification raises
    [NotFittedError] instead of answering [Unknown]. *)
Theorem classify_unknown_until_trained evs (d0 : Detector) fv :
  well_trained d0 →
  let r := Det.add_events evs d0 in
  let d := after r in
  (model d = None →
     Det.classify d fv = inl Det.Unknown ∧
     Det.is_ml_anomaly Det.Unknown = false) ∧
  (raised r ≠ Some FitError →
   (∀ m f, model d = Some m → fitted m ≠ Some f) →
     model d = None ∧ Det.classify d fv = inl Det.Unknown) ∧
  (∀ m f, model d = Some m → fitted m = Some f →
     Det.classify d fv =
       match forest_predict f fv with
       | Some p => inl (if p =? -1 then Det.Anomalous else Det.Normal)
       | None => inr PredictError
       end) ∧
  (raised r = Some FitError →
     ∃ m, model d = Some m ∧ fitted m = None ∧
          Det.classify d fv = inr NotFittedError).
Proof.
  intros Hw r d. split; [| split; [| split]].
  - intros Hm. split; [| done]. unfold Det.classify. by rewrite Hm.
  - intros Hr Hnone.
    pose proof (add_events_well_trained evs d0 Hw Hr) as Hwd. fold r d in Hwd.
    assert (model d = None) as Hm.
    { unfold well_trained in Hwd. destruct (model d) as [m |]; [| done].
      destruct Hwd as [f Hf]. by destruct (Hnone m f). }
    split; [exact Hm |]. unfold Det.classify. by rewrite Hm.
  - intros m f Hm Hf. unfold Det.classify. rewrite Hm, Hf.
    destruct (forest_predict f fv) as [p |]; [| done]. by destruct (_ =? _).
  - intros Hr. destruct (add_events_fit_error evs d0 Hr) as (m & Hm & Hf).
    fold r d in Hm. exists m. split; [exact Hm |]. split; [exact Hf |].
    unfold Det.classify. by rewrite Hm, Hf.
Qed.

(** C9. When [_train_model] gets past its sample-count guard, with
    [threshold] at least 1 and samples that form a matrix, it stores an
    estimator whose contamination is [threshold] divided by the number of
    samples in the buffer, fitted on the whole buffer with that
    contamination; the value is positive, at most one half, and so below
    one. When the samples do not form a matrix no estimator is built:
    the call raises with the detector untouched. *)
Theorem contamination_bounds (d : Detector) :
  1 <= threshold d →
  threshold d * 2 <= Z.of_nat (length (samples d)) →
  (Det.rectangular (samples d) = true →
   ∃ m, model (Det._train_model d).1 = Some m ∧
        fitted m = forest_fit (contamination m) 42 (samples d) ∧
        (contamination m ==
           inject_Z (threshold d) / inject_Z (Z.of_nat (length (samples d))))%Q ∧
        (0 < contamination m)%Q ∧
        (contamination m <= 1 # 2)%Q ∧
        (contamination m < 1)%Q) ∧
  (Det.rectangular (samples d) = false →
     Det._train_model d = (d, Some ValueError)).
Proof.
  intros Ht Hge. split; [| by apply train_model_ragged].
  intros Hrect.
  assert (samples d ≠ []) as Hne.
  { intros Hs. rewrite Hs in Hge. simpl in Hge. lia. }
  rewrite train_model_fits by done. simpl.
  eexists. split; [reflexivity |]. simpl. split; [done |].
  assert (Z.pos (Pos.of_nat (length (samples d))) = Z.of_nat (length (samples d)))
    as Hpos.
  { destruct (samples d) as [| x s]; [done |].
    simpl length. rewrite <- (Pos.of_nat_succ (length s)). lia. }
  unfold fit_contamination.
  split; [| split; [| split]].
  - rewrite <- Hpos. unfold Qeq, Qdiv, Qmult, Qinv, inject_Z. simpl. lia.
  - unfold Qlt. simpl. lia.
  - unfold Qle. simpl. lia.
  - unfold Qlt. simpl. lia.
Qed.

End ModelClaims.

(** ** The claim about dry-run mode *)

Section DryRun.
Context `{PathLib} `{OS}.

Lemma kill_process_dry eng p w :
  dry_run eng = true →
  Response.kill_process eng p w =
    (w, if psutil_Process w p then [MsgKilling p] else [ErrKill]).
Proof.
  intros Hd. unfold Response.kill_process. rewrite Hd. simpl.
  by destruct (psutil_Process w p).
Qed.

Lemma kill_matching_dry eng dir_path procs w :
  dry_run eng = true →
  Response.kill_matching eng dir_path procs w =
    (w, flat_map (dry_kill_log w dir_path) procs).
Proof.
  intros Hd. induction procs as [| proc procs IH]; simpl; [done |].
  unfold dry_kill_log at 1.
  destruct (open_files proc) as [files |]; simpl; [| by rewrite IH].
  destruct (Response.first_open_under dir_path files) as [f |]; simpl;
    [| by rewrite IH].
  rewrite kill_process_dry by done. by rewrite IH.
Qed.

Lemma perform_dry eng c w :
  dry_run eng = true → (Response.perform eng c w).1 = w.
Proof.
  intros Hd. destruct c as [p | p | dir | dir]; simpl.
  - unfold Response.lock_file. rewrite Hd. simpl.
    by destruct (os_path_exists w p).
  - unfold Response.quarantine_file. rewrite Hd. simpl.
    by destruct (os_path_exists w p).
  - unfold Response.lock_directory. by rewrite Hd.
  - unfold Response.kill_offending_process. by rewrite kill_matching_dry.
Qed.

Lemma run_effects_dry eng effs w :
  dry_run eng = true → (Response.run_effects eng effs w).1 = w.
Proof.
  intros Hd. induction effs as [| e effs IH]; simpl; [done |].
  destruct e as [l | c | |]; try exact IH.
  - by destruct (Response.run_effects eng effs w).
  - pose proof (perform_dry eng c w Hd) as Hp.
    destruct (Response.perform eng c w) as [w1 out1]. simpl in Hp. subst w1.
    by destruct (Response.run_effects eng effs w).
Qed.

(** C6. With [dry_run] set, every response action leaves the
    operating-system state as it found it (no file is moved or has its
    mode changed, no process is terminated) and still reports what it
    would do: [lock_file] and [quarantine_file] on an existing path,
    [lock_directory] on any directory and [kill_process] on an existing
    process print their line; [kill_offending_process] prints, for each
    process with an open file under the directory, the match and the kill
    line; a whole trace of detector calls run on the engine leaves the
    state unchanged. *)
Theorem dry_run_suppresses eng (w : World) :
  dry_run eng = true →
  (∀ path, os_path_exists w path = true →
     Response.lock_file eng path w = (w, [MsgLocking path])) ∧
  (∀ path, os_path_exists w path = true →
     Response.quarantine_file eng path w = (w, [MsgQuarantining path])) ∧
  (∀ dir_path,
     Response.lock_directory eng dir_path w = (w, [MsgLockingDirectory dir_path])) ∧
  (∀ p, psutil_Process w p = true →
     Response.kill_process eng p w = (w, [MsgKilling p])) ∧
  (∀ dir_path,
     Response.kill_offending_process eng dir_path w =
       (w, flat_map (dry_kill_log w dir_path) (process_iter w)) ∧
     ∀ proc files f,
       proc ∈ process_iter w → open_files proc = Some files →
       Response.first_open_under dir_path files = Some f →
       psutil_Process w (pid proc) = true →
       MsgKillingOpen (pid proc) f ∈ (Response.kill_offending_process eng dir_path w).2 ∧
       MsgKilling (pid proc) ∈ (Response.kill_offending_process eng dir_path w).2) ∧
  (∀ effs, (Response.run_effects eng effs w).1 = w).
Proof.
  intros Hd. split; [| split; [| split; [| split; [| split]]]].
  - intros path He. unfold Response.lock_file. by rewrite He, Hd.
  - intros path He. unfold Response.quarantine_file. by rewrite He, Hd.
  - intros dir_path. unfold Response.lock_directory. by rewrite Hd.
  - intros p Hp. rewrite kill_process_dry by done. by rewrite Hp.
  - intros dir_path. unfold Response.kill_offending_process.
    rewrite kill_matching_dry by done. split; [done |].
    intros proc files f Hin Hof Hf Hp. simpl.
    assert (dry_kill_log w dir_path proc =
              [MsgKillingOpen (pid proc) f; MsgKilling (pid proc)]) as Hlog
      by (unfold dry_kill_log; by rewrite Hof, Hf, Hp).
    apply list_elem_of_In in Hin.
    split; apply list_elem_of_In, in_flat_map; exists proc;
      (split; [done |]); rewrite Hlog; simpl; auto.
  - intros effs. by apply run_effects_dry.
Qed.

End DryRun.

(** ** The claim about ignore patterns *)

Section IgnoreClaims.
Context `{Sklearn} `{PathLib} `{OS}.

Lemma should_ignore_spec (self : IDPSEventHandler) path :
  Handler.should_ignore self path = true ↔ matches_ignore self path.
Proof.
  unfold Handler.should_ignore, matches_ignore. rewrite existsb_exists.
  split; intros (pat & Hin & Hm); exists pat; (split; [| done]);
    by apply list_elem_of_In.
Qed.

(** C7 (amended). A created, deleted or modified event whose path matches
    an ignore pattern is dropped: the callback returns with the handler
    and its detector unchanged and no effect at all, whatever the
    operating-system state, which it does not read. A moved event is
    dropped in that way when both its source and its destination match;
    when either does not, it is processed with its source path like any
    other event. *)
Theorem ignored_events_dropped (self : IDPSEventHandler) now (w : World) event :
  (∀ c, c ≠ Handler.OnMoved → matches_ignore self (src_path event) →
     Handler.callback c self now w event = Handler.dropped self ∧
     Handler.world_after self (trace (Handler.callback c self now w event)) w = w) ∧
  (matches_ignore self (src_path event) → matches_ignore self (dest_path event) →
     Handler.on_moved self now w event = Handler.dropped self) ∧
  (¬ matches_ignore self (src_path event) ∨ ¬ matches_ignore self (dest_path event) →
     Handler.on_moved self now w event =
       Handler.handle "moved" (dest_path event) self now w event).
Proof.
  split; [| split].
  - intros c Hc Hm. apply should_ignore_spec in Hm.
    assert (Handler.callback c self now w event = Handler.dropped self) as ->.
    { destruct c; [| | done |]; simpl;
        unfold Handler.on_created, Handler.on_deleted, Handler.on_modified;
        by rewrite Hm. }
    split; [done |]. unfold Handler.world_after. simpl.
    by repeat case_match.
  - intros Hs Hd. apply should_ignore_spec in Hs, Hd.
    unfold Handler.on_moved. by rewrite Hs, Hd.
  - intros Hn. unfold Handler.on_moved.
    destruct (Handler.should_ignore self (src_path event)) eqn:Es;
      destruct (Handler.should_ignore self (dest_path event)) eqn:Ed;
      simpl; try done.
    apply should_ignore_spec in Es, Ed. tauto.
Qed.

End IgnoreClaims.

(** ** The properties on the concrete scenarios *)

Section Examples.
#[local] Existing Instance Memo.sklearn.
#[local] Existing Instance Posix.pathlib.
#[local] Existing Instance SimOS.os.
Import Scenario.

(** [escalation_tiers] on the second of two files modified within a
    second, threshold 1: both tiers fire and the queue is cleared. *)
Lemma escalation_tiers_witness :
  let d := after (Det.add_events [modified 1 10 "/w/a"] (detector 1 1000 (Some engine))) in
  let r := Det.add_event (Time.seconds 2) [3; 10] (Some "/w/b") d in
  calls (effects r) =
    [lock_file_call "/w/a"; lock_file_call "/w/b";
     quarantine_file_call "/w/a"; quarantine_file_call "/w/b";
     lock_directory_call "/w"; kill_offending_process_call "/w"] ∧
  event_queue (after r) = [].
Proof.
  intros d r.
  destruct (escalation_tiers (Time.seconds 2) [3; 10] (Some "/w/b") "/w/b" engine d
              (Det.maybe_retrain (Time.seconds 2)
                 (Det.record_event (Time.seconds 2) [3; 10] (Some "/w/b") d)).1
              Det.Unknown eq_refl eq_refl eq_refl eq_refl)
    as (_ & _ & _ & _ & Hhigh).
  apply Hhigh. vm_compute. discriminate.
Defined.

(** C1 as stated fails: with no response engine attached, an event whose
    burst count reaches twice the threshold, with two files in the
    affected set, makes no engine call and leaves the queue uncleared. *)
Lemma escalation_without_engine :
  let r := Det.add_events two_files (detector 1 1000 None) in
  let A := elements (Det.affected_files (event_queue (after r))) in
  raised r = None ∧
  2 * threshold (after r) <= Z.of_nat (length (event_queue (after r))) ∧
  A = ["/w/a"; "/w/b"] ∧
  calls (effects r) = [] ∧
  calls (effects r) ≠ map lock_file_call A ∧
  event_queue (after r) ≠ [].
Proof. vm_compute. repeat split; discriminate. Qed.

(** [add_event_window] after an idle gap: two queued events, then one
    68 seconds later; only the new entry remains. *)
Lemma add_event_window_witness :
  let d := after (Det.add_events two_files (detector 10 1000 None)) in
  event_queue (Det.record_event (Time.seconds 70) [3; 10] (Some "/w/a") d) =
    [(Time.seconds 70, [3; 10], Some "/w/a")].
Proof.
  intros d.
  assert (0 <= time_window d) as Htw by (vm_compute; discriminate).
  assert (StronglySorted time_le (event_queue d)) as Hs.
  { repeat constructor. unfold time_le. vm_compute. discriminate. }
  assert (Forall (recent (Time.seconds 70)) (event_queue d)) as Hr.
  { repeat constructor; vm_compute; discriminate || reflexivity. }
  destruct (add_event_window (Time.seconds 70) [3; 10] (Some "/w/a") d Htw Hs Hr)
    as (_ & _ & Hgap & _).
  apply (Hgap (modified 2 10 "/w/b")); [reflexivity |].
  vm_compute. reflexivity.
Defined.

(** C2 as stated fails: three events within three seconds, threshold 1.
    The second reaches the High tier and clears the queue, so after the
    third the queue holds one entry while three recorded events are
    within the window. *)
Lemma window_count_after_clear :
  let r := Det.add_events burst3 (detector 1 1000 (Some engine)) in
  raised r = None ∧
  length (event_queue (after r)) = 1%nat ∧
  recorded_in_window (Time.seconds 3) 60 burst3 = 3%nat ∧
  length (event_queue (after r)) ≠ recorded_in_window (Time.seconds 3) 60 burst3.
Proof. vm_compute. repeat split; discriminate. Qed.

(** The scenario of the specification: threshold 10, twenty modifications
    of one path within five seconds. The tenth to nineteenth events each
    lock the path, the twentieth locks and quarantines it, locks its
    directory, looks for the offending process, and the queue is cleared. *)
Example burst_scenario :
  let r10 := Det.add_events (quarter_burst 10 2500000) (detector 10 1000 (Some engine)) in
  let r20 := Det.add_events (quarter_burst 20 5000000) (detector 10 1000 (Some engine)) in
  calls (effects r10) = [lock_file_call "/w/a"] ∧
  length (event_queue (after r10)) = 10%nat ∧
  calls (effects r20) =
    replicate 11 (lock_file_call "/w/a") ++
    [quarantine_file_call "/w/a"; lock_directory_call "/w";
     kill_offending_process_call "/w"] ∧
  event_queue (after r20) = [].
Proof. vm_compute. repeat split. Qed.

(** The scenario of the specification: nine events, a wait of 61 seconds,
    one more: the queue then holds one entry and nothing is escalated. *)
Example idle_scenario :
  let r := Det.add_events (quarter_burst 9 2250000 ++ [modified 64 10 "/w/a"])
             (detector 10 1000 (Some engine)) in
  raised r = None ∧ effects r = [] ∧ length (event_queue (after r)) = 1%nat.
Proof. vm_compute. repeat split. Qed.

(** The eviction test reads [timedelta.seconds]: an entry one day and
    five seconds old is not evicted from a 60-second window. *)
Example stale_entry_survives_a_day :
  let d := after (Det.add_events [modified 0 10 "/w/a"] (detector 10 1000 None)) in
  event_queue (Det.record_event (Time.days 1 + Time.seconds 5) [3; 10] (Some "/w/a") d) =
    [modified 0 10 "/w/a"; (Time.days 1 + Time.seconds 5, [3; 10], Some "/w/a")].
Proof. reflexivity. Qed.

(** The fraction of a second is discarded: an entry 60.5 seconds old
    stays in a 60-second window, one 61 seconds old does not. *)
Example fraction_of_second_discarded :
  let d := after (Det.add_events [modified 0 10 "/w/a"] (detector 10 1000 None)) in
  length (event_queue (Det.record_event 60500000 [3; 10] (Some "/w/a") d)) = 2%nat ∧
  length (event_queue (Det.record_event 61000000 [3; 10] (Some "/w/a") d)) = 1%nat.
Proof. split; reflexivity. Qed.

(** [training_failure_propagates] on a second event whose vector has one
    component (the samples are no matrix), and on a second event without
    components after a first of the kind (the fit refuses a matrix
    without columns). *)
Lemma training_failure_propagates_witness :
  let d := after (Det.add_events [modified 1 10 "/w/a"] (detector 1 1000 (Some engine))) in
  let d' := after (Det.add_events [(Time.seconds 1, [], Some "/w/a")]
                     (detector 1 1000 (Some engine))) in
  Det.add_event (Time.seconds 31) [3] (Some "/w/a") d =
    {| after := Det.record_event (Time.seconds 31) [3] (Some "/w/a") d;
       effects := [];
       raised := Some ValueError |} ∧
  Det.add_event (Time.seconds 31) [] (Some "/w/a") d' =
    {| after :=
         Det.set_model
           (Some {| contamination := 1 # 2; random_state := 42; fitted := None |})
           (Det.record_event (Time.seconds 31) [] (Some "/w/a") d');
       effects := [];
       raised := Some FitError |}.
Proof.
  intros d d'.
  destruct (training_failure_propagates (Time.seconds 31) [3] (Some "/w/a") d eq_refl)
    as (_ & _ & _ & Hfail).
  destruct (Hfail ltac:(vm_compute; discriminate)) as (Hragged & _ & _).
  destruct (training_failure_propagates (Time.seconds 31) [] (Some "/w/a") d' eq_refl)
    as (_ & _ & _ & Hfail').
  destruct (Hfail' ltac:(vm_compute; discriminate)) as (_ & _ & Hfit).
  split; [exact (Hragged eq_refl) |].
  exact (Hfit eq_refl ltac:(discriminate) eq_refl).
Defined.

(** C3 as stated fails. A modification of [/w/a] followed, 30 seconds
    later, by an event whose feature vector has one component: the
    training that is due cannot build its sample matrix and raises, the
    exception leaves [add_event], and nothing is printed about it. Two
    events with empty feature vectors, 30 seconds apart: the fit raises,
    the exception leaves [add_event] with nothing printed, and the stored
    model is not the one before the call but the unfitted estimator. *)
Lemma training_failure_is_raised :
  let d := after (Det.add_events [modified 1 10 "/w/a"] (detector 1 1000 (Some engine))) in
  let r := Det.add_event (Time.seconds 31) [3] (Some "/w/a") d in
  let d' := after (Det.add_events [(Time.seconds 1, [], Some "/w/a")]
                     (detector 1 1000 (Some engine))) in
  let r' := Det.add_event (Time.seconds 31) [] (Some "/w/a") d' in
  raised (Det.add_events ragged_events (detector 1 1000 (Some engine))) = Some ValueError ∧
  raised r = Some ValueError ∧ effects r = [] ∧
  raised (Det.add_events featureless_events (detector 1 1000 (Some engine))) = Some FitError ∧
  raised r' = Some FitError ∧ effects r' = [] ∧
  model d' = None ∧
  model (after r') =
    Some {| contamination := 1 # 2; random_state := 42; fitted := None |} ∧
  model (after r') ≠ model d'.
Proof. vm_compute. repeat split. discriminate. Qed.

(** [maybe_retrain_gate] on a fresh detector with one sample: 20 seconds
    after construction the step changes nothing; 31 seconds after, it
    fits nothing and moves [last_trained]. *)
Lemma maybe_retrain_gate_witness :
  let d := Det.record_event (Time.seconds 1) [3; 10] (Some "/w/a") (detector 10 1000 None) in
  Det.maybe_retrain (Time.seconds 20) d = (d, None) ∧
  model (Det.maybe_retrain (Time.seconds 31) d).1 = model d ∧
  Det.maybe_retrain (Time.seconds 31) d = (Det.set_last_trained (Time.seconds 31) d, None).
Proof.
  intros d.
  destruct (maybe_retrain_gate (Time.seconds 20) d) as (_ & Hin & _).
  destruct (maybe_retrain_gate (Time.seconds 31) d) as (Hfew & _ & _ & Hmove).
  split; [| split].
  - apply Hin. vm_compute. split; discriminate.
  - apply Hfew. vm_compute. reflexivity.
  - apply Hmove; vm_compute; reflexivity.
Defined.

(** C4 as stated fails: an event 31 seconds after construction, with one
    sample in the buffer and threshold 10: no model is fit, and yet
    [last_trained] is replaced. *)
Lemma last_trained_moves_without_retrain :
  let d := detector 10 1000 None in
  let r := Det.add_event (Time.seconds 31) [3; 10] (Some "/w/a") d in
  raised r = None ∧
  Z.of_nat (length (samples (after r))) < 2 * threshold d ∧
  model (after r) = None ∧
  last_trained d = 0 ∧
  last_trained (after r) = Time.seconds 31 ∧
  last_trained (after r) ≠ last_trained d.
Proof. vm_compute. repeat split; discriminate. Qed.



(** [dry_run_suppresses] on the world of [Scenario.world]. *)
Lemma dry_run_suppresses_witness :
  Response.lock_file dry_engine "/w/a" world = (world, [MsgLocking "/w/a"]) ∧
  Response.quarantine_file dry_engine "/w/a" world = (world, [MsgQuarantining "/w/a"]) ∧
  Response.lock_directory dry_engine "/w" world = (world, [MsgLockingDirectory "/w"]) ∧
  Response.kill_process dry_engine 7 world = (world, [MsgKilling 7]) ∧
  (Response.kill_offending_process dry_engine "/w" world).1 = world ∧
  MsgKilling 7 ∈ (Response.kill_offending_process dry_engine "/w" world).2.
Proof.
  destruct (@dry_run_suppresses Posix.pathlib SimOS.os dry_engine world eq_refl)
    as (Hlock & Hquar & Hdir & Hkill & Hoff & _).
  split; [apply Hlock; reflexivity |].
  split; [apply Hquar; reflexivity |].
  split; [apply Hdir |].
  split; [apply Hkill; reflexivity |].
  destruct (Hoff "/w") as (Heq & Hlog).
  split; [by rewrite Heq |].
  apply (Hlog {| pid := 7; open_files := Some ["/w/a"] |} ["/w/a"] "/w/a");
    [apply list_elem_of_here | reflexivity | reflexivity | reflexivity].
Defined.

(** [ignored_events_dropped] on the handler of [main]: a created [.log]
    file and a move from [.tmp] to [.log] are dropped. *)
Lemma ignored_events_dropped_witness :
  Handler.on_created handler (Time.seconds 5) world created_log = Handler.dropped handler ∧
  Handler.on_moved handler (Time.seconds 5) world moved_tmp_to_log = Handler.dropped handler.
Proof.
  assert (matches_ignore handler "/w/x.log") as Hlog.
  { exists "*.log". split; [repeat constructor | reflexivity]. }
  assert (matches_ignore handler "/w/a.tmp") as Htmp.
  { exists "*.tmp". split; [repeat constructor | reflexivity]. }
  assert (matches_ignore handler "/w/a.log") as Halog.
  { exists "*.log". split; [repeat constructor | reflexivity]. }
  split.
  - destruct (@ignored_events_dropped Memo.sklearn Posix.pathlib SimOS.os handler
                (Time.seconds 5) world created_log)
      as (Hdrop & _).
    apply (Hdrop Handler.OnCreated); [discriminate | exact Hlog].
  - destruct (@ignored_events_dropped Memo.sklearn Posix.pathlib SimOS.os handler
                (Time.seconds 5) world moved_tmp_to_log)
      as (_ & Hboth & _).
    apply Hboth; [exact Htmp | exact Halog].
Defined.

(** C7 as stated fails: a file moved from [a.tmp] to [a.txt]. Its path
    matches [*.tmp], and the event is not dropped: its feature vector is
    extracted and queued in the detector. *)
Lemma moved_from_ignored_path_is_processed :
  let r := Handler.on_moved handler (Time.seconds 5) world moved_tmp_to_txt in
  Handler.should_ignore handler (src_path moved_tmp_to_txt) = true ∧
  r ≠ Handler.dropped handler ∧
  (event_queue <$> anomaly_detector (handler_after r)) =
    Some [(Time.seconds 5, [2; 0], Some "/w/a.tmp")].
Proof. vm_compute. repeat split; discriminate. Qed.

(** [classify_unknown_until_trained]: after two events on a fresh
    detector no model is stored and the verdict is [Unknown]; on the
    detector of [Scenario.trained] the stored model decides on a pair and
    its [predict] raises on a triple; after the two events without
    components the fit has raised and classification raises. *)
Lemma classify_unknown_until_trained_witness :
  Det.classify (after (Det.add_events two_files (detector 10 1000 (Some engine)))) [3; 10] =
    inl Det.Unknown ∧
  Det.classify (after trained) [3; 99] = inl Det.Anomalous ∧
  Det.classify (after trained) [3; 99; 0] = inr PredictError ∧
  Det.classify (after (Det.add_events featureless_events (detector 1 1000 (Some engine))))
    [3; 10] = inr NotFittedError.
Proof.
  destruct (classify_unknown_until_trained two_files
              (detector 10 1000 (Some engine)) [3; 10] I) as (_ & Hnone & _ & _).
  destruct (classify_unknown_until_trained training_events
              (detector 1 2 (Some engine)) [3; 99] I) as (_ & _ & Hfit & _).
  destruct (classify_unknown_until_trained training_events
              (detector 1 2 (Some engine)) [3; 99; 0] I) as (_ & _ & Hwide & _).
  destruct (classify_unknown_until_trained featureless_events
              (detector 1 1000 (Some engine)) [3; 10] I) as (_ & _ & _ & Hraise).
  split; [| split; [| split]].
  - apply (Hnone ltac:(discriminate)). intros m f Hm. discriminate Hm.
  - exact (Hfit {| contamination := 1 # 2; random_state := 42;
                   fitted := Some [[3; 10]; [3; 20]] |}
             [[3; 10]; [3; 20]] eq_refl eq_refl).
  - exact (Hwide {| contamination := 1 # 2; random_state := 42;
                    fitted := Some [[3; 10]; [3; 20]] |}
             [[3; 10]; [3; 20]] eq_refl eq_refl).
  - destruct (Hraise eq_refl) as (m & _ & _ & Hc). exact Hc.
Defined.

(** C8 as stated fails: two events with empty feature vectors, 30
    seconds apart, on a detector with threshold 1. The training of the
    second call fits a matrix without columns, which the fit refuses. No
    model has been trained, and the stored estimator is the unfitted one:
    classification raises instead of answering [Unknown], as does
    [add_event] at a clock reading at which no retrain is due. *)
Lemma classify_after_failed_fit :
  let r := Det.add_events featureless_events (detector 1 1000 (Some engine)) in
  raised r = Some FitError ∧
  model (after r) =
    Some {| contamination := 1 # 2; random_state := 42; fitted := None |} ∧
  Det.classify (after r) [3; 10] = inr NotFittedError ∧
  Det.classify (after r) [3; 10] ≠ inl Det.Unknown ∧
  Det.retrain_due (Time.days 1 + Time.seconds 5) (after r) = false ∧
  raised (Det.add_event (Time.days 1 + Time.seconds 5) [3; 10] (Some "/w/a") (after r)) =
    Some NotFittedError.
Proof. vm_compute. repeat split; discriminate. Qed.

(** [contamination_bounds] on the detector of [Scenario.trained]:
    threshold 1, two samples. *)
Lemma contamination_bounds_witness :
  ∃ m, model (Det._train_model (after trained)).1 = Some m ∧
       fitted m = forest_fit (contamination m) 42 (samples (after trained)) ∧
       (contamination m ==
          inject_Z (threshold (after trained)) /
          inject_Z (Z.of_nat (length (samples (after trained)))))%Q ∧
       (0 < contamination m)%Q ∧
       (contamination m <= 1 # 2)%Q ∧
       (contamination m < 1)%Q.
Proof.
  exact (proj1 (contamination_bounds (after trained)
                  ltac:(vm_compute; discriminate) ltac:(vm_compute; discriminate))
           eq_refl).
Defined.

(** [handle_threat_without_target] at a burst count of 25, threshold 10,
    with no path. *)
Lemma handle_threat_without_target_witness :
  let d := Det.set_event_queue burst3 (detector 10 1000 (Some engine)) in
  Det._handle_threat None 25 d = (d, [Print MsgDebugUsing; Print MsgWarnNoEngine]) ∧
  calls (Det._handle_threat None 25 d).2 = [] ∧
  event_queue (Det._handle_threat None 25 d).1 = event_queue d.
Proof.
  intros d. apply (handle_threat_without_target None 25 d). left. reflexivity.
Defined.

End Examples.

(** * Further properties of the detector *)

Section DetectorMore.
Context `{Sklearn} `{PathLib}.

(** ** The sample buffer *)

Lemma take_last_all {A} n (l : list A) :
  (length l <= n)%nat → take_last n l = l.
Proof.
  intros Hl. unfold take_last.
  replace (length l - n)%nat with 0%nat by lia. done.
Qed.

Lemma take_last_length {A} n (l : list A) :
  length (take_last n l) = Nat.min (length l) n.
Proof. unfold take_last. rewrite length_drop. lia. Qed.

Lemma take_last_snoc {A} n (l : list A) x :
  take_last n (take_last n l ++ [x]) = take_last n (l ++ [x]).
Proof.
  destruct (decide (length l <= n)%nat) as [Hle | Hgt].
  - by rewrite (take_last_all n l).
  - unfold take_last. rewrite !length_app, !length_drop. simpl.
    destruct n as [| n].
    + rewrite !drop_ge; [done | |]; rewrite ?length_app, ?length_drop; simpl; lia.
    + replace (length l - (length l - S n) + 1 - S n)%nat with 1%nat by lia.
      replace (length l + 1 - S n)%nat with (S (length l - S n)) by lia.
      rewrite (drop_app_le l) by lia.
      rewrite (drop_app_le (drop _ l)) by (rewrite length_drop; lia).
      rewrite drop_drop. f_equal. f_equal. lia.
Qed.

Lemma take_last_idemp {A} n (l : list A) : take_last n (take_last n l) = take_last n l.
Proof. apply take_last_all. rewrite take_last_length. lia. Qed.

Lemma take_last_app {A} n (k : list A) : ∀ l,
  take_last n (take_last n l ++ k) = take_last n (l ++ k).
Proof.
  induction k as [| x k IH]; intros l.
  - rewrite !app_nil_r. apply take_last_idemp.
  - rewrite !(cons_middle x), !app_assoc.
    rewrite <- (IH (take_last n l ++ [x])), take_last_snoc. apply IH.
Qed.

(** Whatever [add_event] does afterwards, the sample has been appended. *)
Lemma add_event_samples now fv path (d : Detector) :
  samples (after (Det.add_event now fv path d)) =
    take_last (max_samples d) (samples d ++ [fv]).
Proof.
  unfold Det.add_event.
  destruct (Det.maybe_retrain now (Det.record_event now fv path d))
    as [d2 e] eqn:Hr.
  apply maybe_retrain_frame in Hr as (_ & _ & Hs).
  assert (samples d2 = take_last (max_samples d) (samples d ++ [fv])) as Hd2
    by (by rewrite Hs).
  destruct e as [e |]; [done |].
  destruct (Det.classify d2 fv) as [v | e]; [| done].
  destruct (Det.is_ml_anomaly v || _); [| done].
  unfold Det._handle_threat.
  destruct (response_engine d2), (Det.truthy path); simpl; try done.
  by destruct (threshold d2 * 2 <=? _).
Qed.

(** [add_event] never changes what [__init__] fixed, whether it returns
    or raises. *)
Lemma add_event_config now fv path (d : Detector) :
  same_config d (after (Det.add_event now fv path d)).
Proof.
  unfold Det.add_event.
  destruct (Det.maybe_retrain now (Det.record_event now fv path d))
    as [d2 e] eqn:Hr.
  apply escalation_state_frame in Hr as (Hc & _ & _).
  destruct e as [e |]; [done |].
  destruct (Det.classify d2 fv) as [v | e]; [| done].
  destruct (Det.is_ml_anomaly v || _); [| done].
  unfold Det._handle_threat.
  destruct (response_engine d2), (Det.truthy path); simpl; try done.
  by destruct (threshold d2 * 2 <=? _).
Qed.

Lemma add_events_config evs : ∀ d : Detector,
  same_config d (after (Det.add_events evs d)).
Proof.
  induction evs as [| [[now fv] path] evs IH]; intros d; simpl.
  - apply same_config_refl.
  - destruct (raised (Det.add_event now fv path d)); [apply add_event_config |].
    simpl. eapply same_config_trans; [apply add_event_config | apply IH].
Qed.

(** X1. The sample buffer is a ring of capacity [max_samples]: along any
    run of [add_event] calls it never holds more than [max_samples]
    vectors, and after a run in which no call raised it holds exactly the
    last [max_samples] of the vectors it had and those of the events, in
    order, whatever was evicted from the event queue meanwhile. *)
Theorem samples_ring evs (d : Detector) :
  (length (samples d) <= max_samples d)%nat →
  (length (samples (after (Det.add_events evs d))) <= max_samples d)%nat ∧
  (raised (Det.add_events evs d) = None →
     samples (after (Det.add_events evs d)) =
       take_last (max_samples d) (samples d ++ feature_vectors evs)).
Proof.
  revert d. induction evs as [| [[now fv] path] evs IH]; intros d Hd.
  - simpl. split; [done |]. intros _.
    by rewrite app_nil_r, take_last_all.
  - simpl.
    pose proof (add_event_samples now fv path d) as Hs.
    pose proof (add_event_config now fv path d) as (_ & _ & _ & Hmax & _).
    assert (length (samples (after (Det.add_event now fv path d)))
              <= max_samples d)%nat as Hlen.
    { rewrite Hs, take_last_length. lia. }
    destruct (raised (Det.add_event now fv path d)) eqn:Er.
    + split; [done |]. by rewrite Er.
    + simpl. rewrite <- Hmax in Hlen.
      destruct (IH _ Hlen) as (Hbound & Hrun). rewrite Hmax in Hbound, Hrun.
      split; [exact Hbound |]. intros Hr. rewrite (Hrun Hr), Hs.
      rewrite take_last_app. by rewrite <- app_assoc.
Qed.

(** X2. [add_event] never changes the configuration ([threshold],
    [time_window], [train_interval], the buffer capacity and the attached
    engine), whether the calls return or one of them raises. *)
Theorem configuration_is_fixed evs (d : Detector) :
  threshold (after (Det.add_events evs d)) = threshold d ∧
  time_window (after (Det.add_events evs d)) = time_window d ∧
  train_interval (after (Det.add_events evs d)) = train_interval d ∧
  max_samples (after (Det.add_events evs d)) = max_samples d ∧
  response_engine (after (Det.add_events evs d)) = response_engine d.
Proof. exact (add_events_config evs d). Qed.

End DetectorMore.

Section QueueMore.
Context `{Sklearn} `{PathLib}.

(** ** The event queue *)

Lemma evict_suffix now tw (q : list QEntry) : Det.evict now tw q `suffix_of` q.
Proof.
  induction q as [| e q IH]; simpl; [done |].
  destruct (tw <? _); [by apply suffix_cons_r | done].
Qed.

Lemma evict_head now tw (q : list QEntry) e q' :
  Det.evict now tw q = e :: q' →
  Time.timedelta_seconds now (entry_time e) <= tw.
Proof.
  induction q as [| x q IH]; simpl; [done |].
  destruct (Z.ltb_spec tw (Time.timedelta_seconds now (entry_time x))) as [Hlt | Hge];
    [exact IH |].
  intros Heq. by simplify_eq.
Qed.

(** X3. Whatever the queue holds and whatever the clock reads, [add_event]
    removes entries only from the head: the queue it leaves is a suffix
    of the old queue followed by the new entry, so entries are never
    reordered or dropped from the middle; and after the recording step
    the head, if any, passes the age test. *)
Theorem queue_drops_from_head_only now fv path (d : Detector) :
  event_queue (after (Det.add_event now fv path d))
    `suffix_of` (event_queue d ++ [(now, fv, path)]) ∧
  event_queue (Det.record_event now fv path d)
    `suffix_of` (event_queue d ++ [(now, fv, path)]) ∧
  (∀ e q', event_queue (Det.record_event now fv path d) = e :: q' →
     Time.timedelta_seconds now (entry_time e) <= time_window d).
Proof.
  assert (event_queue (Det.record_event now fv path d)
            `suffix_of` (event_queue d ++ [(now, fv, path)])) as Hrec
    by apply evict_suffix.
  split; [| split; [exact Hrec |]].
  - destruct (add_event_queue now fv path d) as [-> | ->];
      [exact Hrec | apply suffix_nil].
  - intros e q' Hq. by apply (evict_head now _ _ _ _ Hq).
Qed.

Lemma evict_keeps_new now tw (q : list QEntry) fv path :
  0 <= tw →
  ∃ q', Det.evict now tw (q ++ [(now, fv, path)]) = q' ++ [(now, fv, path)].
Proof.
  intros Htw. induction q as [| e q IH]; simpl.
  - unfold entry_time, Time.timedelta_seconds, Time.whole_seconds. simpl.
    rewrite Z.sub_diag.
    replace (tw <? _) with false; [by exists [] |].
    symmetry. apply Z.ltb_ge. by vm_compute.
  - destruct (tw <? _); [exact IH |]. by exists (e :: q).
Qed.

Lemma evict_negative_window now tw (q : list QEntry) :
  tw < 0 → Det.evict now tw q = [].
Proof.
  intros Htw. induction q as [| e q IH]; simpl; [done |].
  pose proof (timedelta_seconds_range now (entry_time e)) as Hr.
  by rewrite (proj2 (Z.ltb_lt _ _)) by lia.
Qed.

(** X4. The sign of [time_window] decides whether anything is counted.
    With a non-negative window the event just recorded is never evicted:
    it is the last entry of the queue and the burst count is at least 1,
    whatever the older entries and clock readings are. With a negative
    window every entry fails the age test, the new one included: the
    burst count [add_event] works with is 0. *)
Theorem window_sign now fv path (d : Detector) :
  (0 <= time_window d →
     last (event_queue (Det.record_event now fv path d)) = Some (now, fv, path) ∧
     (1 <= length (event_queue (Det.record_event now fv path d)))%nat) ∧
  (time_window d < 0 →
     event_queue (Det.record_event now fv path d) = [] ∧
     event_queue (after (Det.add_event now fv path d)) = []).
Proof.
  split.
  - intros Htw.
    destruct (evict_keeps_new now (time_window d) (event_queue d) fv path Htw)
      as (q' & Hq).
    unfold Det.record_event. simpl. rewrite Hq. split; [apply last_snoc |].
    rewrite length_app. simpl. lia.
  - intros Htw.
    assert (event_queue (Det.record_event now fv path d) = []) as Hq
      by (by apply evict_negative_window).
    split; [exact Hq |].
    destruct (add_event_queue now fv path d) as [-> | ->]; done.
Qed.

(** X5. The age test looks at the time of day only. Moving the clock
    reading by any whole number of days, forwards or backwards, changes
    neither which entries the eviction loop removes nor whether a retrain
    is due. *)
Theorem whole_days_are_invisible now k tw (q : list QEntry) (d : Detector) :
  Det.evict (now + Time.days k) tw q = Det.evict now tw q ∧
  Det.retrain_due (now + Time.days k) d = Det.retrain_due now d.
Proof.
  assert (∀ t, Time.timedelta_seconds (now + Time.days k) t =
               Time.timedelta_seconds now t) as Hday.
  { intros t. unfold Time.timedelta_seconds, Time.whole_seconds, Time.days,
      Time.sec_per_day, Time.usec_per_sec.
    replace (now + k * 86400 * 1000000 - t)
      with (now - t + (k * 86400) * 1000000) by lia.
    rewrite Z.div_add by lia. apply Z.mod_add. lia. }
  split.
  - induction q as [| e q IH]; simpl; [done |].
    by rewrite Hday, IH.
  - unfold Det.retrain_due. by rewrite Hday.
Qed.

(** ** Escalation *)

Lemma handle_threat_debug_first path count (d : Detector) :
  ∃ out, (Det._handle_threat path count d).2 = Print MsgDebugUsing :: out.
Proof.
  unfold Det._handle_threat.
  destruct (response_engine d), (Det.truthy path); simpl; eauto.
  destruct (threshold d * 2 <=? count); simpl; eauto.
Qed.

(** X6. Once the retrain and classification steps of [add_event] have
    returned, [_handle_threat] is entered exactly when the verdict is
    anomalous or the burst count has reached [threshold]; otherwise the
    call prints nothing, calls nothing and ends in the state those steps
    left. *)
Theorem escalation_entered_iff now fv path (d d2 : Detector) v :
  Det.maybe_retrain now (Det.record_event now fv path d) = (d2, None) →
  Det.classify d2 fv = inl v →
  let count := Z.of_nat (length (event_queue d2)) in
  let r := Det.add_event now fv path d in
  (Print MsgDebugUsing ∈ effects r ↔ v = Det.Anomalous ∨ threshold d <= count) ∧
  (v ≠ Det.Anomalous → count < threshold d → effects r = [] ∧ after r = d2).
Proof.
  intros Hr Hc count r.
  pose proof (escalation_state_frame _ _ _ _ _ _ Hr) as ((Ht & _) & _).
  assert (Hadd := add_event_escalates _ _ _ _ _ _ Hr Hc). simpl in Hadd.
  fold count in Hadd. fold r in Hadd. rewrite Ht in Hadd.
  destruct (handle_threat_debug_first path count d2) as (out & Hout).
  assert ((v = Det.Anomalous ∨ threshold d <= count) ∨
          (v ≠ Det.Anomalous ∧ count < threshold d)) as [Hyes | (Hv & Hlt)].
  { destruct (Z.le_gt_cases (threshold d) count); [auto |].
    destruct v; auto; right; split; done || lia. }
  - assert (Det.is_ml_anomaly v || (threshold d <=? count) = true) as Hb.
    { destruct Hyes as [-> | Hb]; [done |].
      apply orb_true_iff. right. by apply Z.leb_le. }
    rewrite Hb in Hadd. split.
    + split; [by intros _ |]. intros _. rewrite Hadd. simpl. rewrite Hout.
      apply elem_of_app. right. apply list_elem_of_here.
    + intros Hv Hlt. destruct Hyes as [? | ?]; [done | lia].
  - assert (Det.is_ml_anomaly v = false) as Hf by (by destruct v).
    rewrite Hf, (proj2 (Z.leb_gt (threshold d) count)) in Hadd by lia.
    simpl in Hadd. rewrite Hadd. simpl. split; [| done].
    split; [intros Hin; by apply elem_of_nil in Hin |].
    intros [? | ?]; [done | lia].
Qed.

(** X7. With a non-negative window, an engine attached and a non-empty
    path, the file of the triggering event is itself among the files
    acted on: it is locked whenever the burst count has reached
    [threshold], and quarantined as well at twice [threshold]. *)
Theorem trigger_path_is_contained now fv path p eng (d d2 : Detector) v :
  Det.maybe_retrain now (Det.record_event now fv path d) = (d2, None) →
  Det.classify d2 fv = inl v →
  response_engine d = Some eng →
  Det.truthy path = Some p →
  0 <= time_window d →
  let count := Z.of_nat (length (event_queue d2)) in
  let r := Det.add_event now fv path d in
  p ∈ Det.affected_files (event_queue d2) ∧
  (threshold d <= count → lock_file_call p ∈ calls (effects r)) ∧
  (2 * threshold d <= count → quarantine_file_call p ∈ calls (effects r)).
Proof.
  intros Hr Hc He Hp Htw count r.
  pose proof (escalation_state_frame _ _ _ _ _ _ Hr)
    as ((Ht & _ & _ & _ & He2) & Hq & _).
  rewrite He in He2.
  assert (p ∈ Det.affected_files (event_queue d2)) as Hin.
  { apply affected_files_spec. apply truthy_Some in Hp as (-> & Hne).
    split; [done |]. exists (now, fv, Some p). split; [| done].
    rewrite Hq.
    destruct (evict_keeps_new now (time_window d) (event_queue d) fv (Some p) Htw)
      as (q' & Hq').
    unfold Det.record_event. simpl. rewrite Hq'. set_solver. }
  assert (p ∈ elements (Det.affected_files (event_queue d2))) as Hel
    by (by apply elem_of_elements).
  assert (Hadd := add_event_escalates _ _ _ _ _ _ Hr Hc). simpl in Hadd.
  fold count in Hadd. fold r in Hadd. rewrite Ht in Hadd.
  assert (0 <= count) as Hnn by (unfold count; lia).
  split; [exact Hin |]. split.
  - intros Hm. rewrite Hadd.
    rewrite (proj2 (Z.leb_le (threshold d) count)) by lia.
    rewrite orb_true_r. simpl. rewrite calls_app. apply elem_of_app. right.
    destruct (Z.le_gt_cases (2 * threshold d) count) as [Hh | Hh].
    + rewrite (handle_threat_high _ _ _ eng p) by (rewrite ?Ht; done || lia).
      simpl. rewrite calls_app, calls_invoke. apply elem_of_app. left.
      by apply list_elem_of_fmap_2.
    + rewrite (handle_threat_medium _ _ _ eng p) by (rewrite ?Ht; done || lia).
      simpl. rewrite calls_invoke. by apply list_elem_of_fmap_2.
  - intros Hh. rewrite Hadd.
    rewrite (proj2 (Z.leb_le (threshold d) count)) by lia.
    rewrite orb_true_r. simpl. rewrite calls_app. apply elem_of_app. right.
    rewrite (handle_threat_high _ _ _ eng p) by (rewrite ?Ht; done || lia).
    simpl. rewrite calls_app, calls_invoke. apply elem_of_app. right.
    simpl. rewrite calls_app, calls_invoke. apply elem_of_app. left.
    by apply list_elem_of_fmap_2.
Qed.

End QueueMore.

Section ModelMore.
Context `{Sklearn} `{PathLib}.

(** ** Training *)

Lemma take_last_last {A} n (l : list A) x :
  (1 <= n)%nat → last (take_last n (l ++ [x])) = Some x.
Proof.
  intros Hn. unfold take_last. rewrite length_app. simpl.
  rewrite drop_app_le by lia. apply last_snoc.
Qed.

Lemma handle_threat_last_trained path count (d : Detector) :
  last_trained (Det._handle_threat path count d).1 = last_trained d.
Proof.
  unfold Det._handle_threat.
  destruct (response_engine d), (Det.truthy path); simpl; try done.
  by destruct (threshold d * 2 <=? count).
Qed.

(** X8. A retrain that is due, has enough samples, all of one length,
    and whose fit returns: the fit runs on a buffer that already ends with
    the feature vector of the event being processed, the fitted estimator
    replaces the stored model, [last_trained] becomes the clock reading,
    and the event itself is classified by the new model in the same call:
    the call returns when that model's [predict] does, and the anomaly
    line is printed exactly when the prediction is -1. *)
Theorem retrain_then_classify now fv path (d : Detector) f :
  Det.retrain_due now d = true →
  let d1 := Det.record_event now fv path d in
  threshold d * 2 <= Z.of_nat (length (samples d1)) →
  Det.rectangular (samples d1) = true →
  (1 <= max_samples d)%nat →
  forest_fit (fit_contamination d1) 42 (samples d1) = Some f →
  let r := Det.add_event now fv path d in
  raised r =
    match forest_predict f fv with
    | Some _ => None
    | None => Some PredictError
    end ∧
  last (samples d1) = Some fv ∧
  model (after r) =
    Some {| contamination := fit_contamination d1; random_state := 42;
            fitted := Some f |} ∧
  last_trained (after r) = now ∧
  (Print MsgMLAnomaly ∈ effects r ↔ forest_predict f fv = Some (-1)).
Proof.
  intros Hdue d1 Hge Hrect Hmax Hfit r.
  assert (last (samples d1) = Some fv) as Hlast
    by (by apply take_last_last).
  assert (samples d1 ≠ []) as Hne by (intros Hs; by rewrite Hs in Hlast).
  set (m := {| contamination := fit_contamination d1; random_state := 42;
               fitted := Some f |}).
  set (d2 := Det.set_last_trained now (Det.set_model (Some m) d1)).
  assert (Det.maybe_retrain now d1 = (d2, None)) as Hr.
  { unfold Det.maybe_retrain.
    change (Det.retrain_due now d1) with (Det.retrain_due now d). rewrite Hdue.
    rewrite train_model_fits by done. by rewrite Hfit. }
  destruct (forest_predict f fv) as [p |] eqn:Hp.
  - set (v := if p =? -1 then Det.Anomalous else Det.Normal).
    assert (Det.classify d2 fv = inl v) as Hc.
    { unfold Det.classify, v. simpl. rewrite Hp. by destruct (_ =? _). }
    assert (Hadd := add_event_escalates _ _ _ _ _ _ Hr Hc). cbv zeta in Hadd.
    fold r in Hadd.
    set (count := Z.of_nat (length (event_queue d2))) in *.
    pose proof (handle_threat_model path count d2) as Hm.
    pose proof (handle_threat_last_trained path count d2) as Hl.
    pose proof (handle_threat_no_anomaly_line path count d2) as Hno.
    rewrite Forall_forall in Hno.
    destruct (Det.is_ml_anomaly v || (threshold d2 <=? count)) eqn:Eb;
      rewrite Hadd; simpl.
    + split; [done |]. split; [exact Hlast |]. split; [exact Hm |].
      split; [exact Hl |]. unfold v in *.
      destruct (Z.eqb_spec p (-1)) as [Heq | Hneq]; simpl.
      * split; [by rewrite Heq |]. intros _. apply list_elem_of_here.
      * split; [| by intros [= ?]]. intros Hin. by destruct (Hno _ Hin).
    + split; [done |]. split; [exact Hlast |]. split; [done |]. split; [done |].
      unfold v in *.
      destruct (Z.eqb_spec p (-1)) as [Heq | Hneq]; simpl in *; [done |].
      split; [| by intros [= ?]]. intros Hin. by apply elem_of_nil in Hin.
  - assert (Det.classify d2 fv = inr PredictError) as Hc.
    { unfold Det.classify. simpl. by rewrite Hp. }
    unfold r. rewrite (add_event_classify_raises _ _ _ _ _ _ Hr Hc). simpl.
    split; [done |]. split; [exact Hlast |]. split; [done |]. split; [done |].
    split; [| done]. intros Hin. by apply elem_of_nil in Hin.
Qed.


Lemma add_event_small_buffer now fv path (d : Detector) :
  Z.of_nat (max_samples d) < threshold d * 2 →
  well_trained d →
  model (after (Det.add_event now fv path d)) = model d ∧
  ((∀ m f, model d = Some m → fitted m = Some f →
      is_Some (forest_predict f fv)) →
     raised (Det.add_event now fv path d) = None) ∧
  (∀ e, raised (Det.add_event now fv path d) = Some e → e = PredictError).
Proof.
  intros Hcap Hw.
  set (d1 := Det.record_event now fv path d).
  assert (Z.of_nat (length (samples d1)) < threshold d1 * 2) as Hfew.
  { unfold d1, Det.record_event, Det.deque_append. simpl.
    rewrite length_drop, length_app. simpl. lia. }
  assert (∃ d2, Det.maybe_retrain now d1 = (d2, None) ∧ model d2 = model d)
    as (d2 & Hr & Hm).
  { unfold Det.maybe_retrain. destruct (Det.retrain_due now d1); [| by eauto].
    rewrite train_model_skips by exact Hfew. by eauto. }
  destruct (Det.classify d2 fv) as [v | e] eqn:Hc.
  - rewrite (add_event_escalates _ _ _ _ _ _ Hr Hc). cbv zeta.
    destruct (_ || _); simpl.
    + rewrite handle_threat_model. split; [exact Hm |]. by split.
    + split; [exact Hm |]. by split.
  - rewrite (add_event_classify_raises _ _ _ _ _ _ Hr Hc). simpl.
    split; [exact Hm |].
    unfold Det.classify, well_trained in *. rewrite Hm in Hc.
    destruct (model d) as [m |]; [| done].
    destruct Hw as [f Hf]. rewrite Hf in Hc.
    destruct (forest_predict f fv) as [p |] eqn:Hp.
    + by destruct (_ =? _).
    + injection Hc as <-. split; [| by intros e' [= <-]].
      intros Hall. destruct (Hall m f eq_refl Hf) as [p Hp']. congruence.
Qed.

(** X10. A sample buffer with room for fewer than twice [threshold]
    vectors never lets the model be trained: along every run of
    [add_event] calls the stored model stays the one the detector started
    with, so that a detector built with such a capacity never has a
    model, and on it no call raises. With a fitted model there from the
    start the only exception is one of that model's [predict], and no
    call raises when it returns on every event's vector. *)
Theorem small_buffer_never_trains evs (d : Detector) :
  Z.of_nat (max_samples d) < threshold d * 2 →
  well_trained d →
  model (after (Det.add_events evs d)) = model d ∧
  (model d = None → raised (Det.add_events evs d) = None) ∧
  ((∀ m f, model d = Some m → fitted m = Some f →
      Forall (fun x => is_Some (forest_predict f x)) (feature_vectors evs)) →
     raised (Det.add_events evs d) = None) ∧
  (∀ e, raised (Det.add_events evs d) = Some e → e = PredictError).
Proof.
  intros Hcap Hw.
  cut (model (after (Det.add_events evs d)) = model d ∧
       ((∀ m f, model d = Some m → fitted m = Some f →
           Forall (fun x => is_Some (forest_predict f x)) (feature_vectors evs)) →
          raised (Det.add_events evs d) = None) ∧
       (∀ e, raised (Det.add_events evs d) = Some e → e = PredictError)).
  { intros (Hm & Hr & He). split; [exact Hm |]. split; [| by split].
    intros Hnone. apply Hr. intros m f Hsome. by rewrite Hnone in Hsome. }
  revert d Hcap Hw.
  induction evs as [| [[now fv] path] evs IH]; intros d Hcap Hw; [done |].
  simpl.
  destruct (add_event_small_buffer now fv path d Hcap Hw) as (Hm & Hr & He).
  pose proof (add_event_config now fv path d) as (Ht & _ & _ & Hmax & _).
  destruct (raised (Det.add_event now fv path d)) as [e |] eqn:Er.
  - rewrite Er. split; [exact Hm |]. split; [| exact He].
    intros Hall. apply Hr. intros m f Hsome Hf.
    by apply (Forall_inv (Hall m f Hsome Hf)).
  - simpl.
    destruct (IH (after (Det.add_event now fv path d))) as (Hm' & Hr' & He').
    + by rewrite Ht, Hmax.
    + unfold well_trained in *. by rewrite Hm.
    + split; [by rewrite Hm' |]. split; [| exact He'].
      intros Hall. apply Hr'. intros m f Hsome Hf. rewrite Hm in Hsome.
      by apply (Forall_inv_tail (Hall m f Hsome Hf)).
Qed.

(** X11. The degenerate configuration of an empty buffer and a threshold
    that is not positive: the sample-count guard of [_train_model] does
    not stop the training, the contamination is a division by the buffer
    length 0, and every [add_event] at which a retrain is due raises
    [ZeroDivisionError] with the model untouched. *)
Theorem empty_buffer_divides_by_zero now fv path (d : Detector) :
  max_samples d = 0%nat →
  threshold d <= 0 →
  Det.retrain_due now d = true →
  raised (Det.add_event now fv path d) = Some ZeroDivisionError ∧
  samples (after (Det.add_event now fv path d)) = [] ∧
  model (after (Det.add_event now fv path d)) = model d.
Proof.
  intros Hmax Ht Hdue.
  set (d1 := Det.record_event now fv path d).
  assert (samples d1 = []) as Hs.
  { unfold d1, Det.record_event, Det.deque_append. simpl. rewrite Hmax.
    apply drop_ge. lia. }
  assert (Det.maybe_retrain now d1 = (d1, Some ZeroDivisionError)) as Hr.
  { unfold Det.maybe_retrain.
    change (Det.retrain_due now d1) with (Det.retrain_due now d). rewrite Hdue.
    unfold Det._train_model. rewrite Hs.
    replace (Z.of_nat (length (@nil FeatureVector)) <? threshold d1 * 2)
      with false; [done |].
    symmetry. apply Z.ltb_ge. change (threshold d1) with (threshold d).
    simpl. lia. }
  unfold Det.add_event. fold d1. rewrite Hr.
  split; [done |]. split; [exact Hs | done].
Qed.

End ModelMore.

(** * Further properties of the response engine *)

Section EngineMore.
Context `{PathLib} `{OS}.

(** X12. On a path that does not exist [lock_file] and [quarantine_file]
    do nothing, in dry-run mode or not: no operating-system call, no
    output. [kill_process] on a process id that does not exist changes
    nothing and reports the failure. *)
Theorem missing_target_is_skipped eng (w : World) :
  (∀ path, os_path_exists w path = false →
     Response.lock_file eng path w = (w, []) ∧
     Response.quarantine_file eng path w = (w, [])) ∧
  (∀ p, psutil_Process w p = false →
     Response.kill_process eng p w = (w, [ErrKill])).
Proof.
  split.
  - intros path He. unfold Response.lock_file, Response.quarantine_file.
    by rewrite He.
  - intros p Hp. unfold Response.kill_process. by rewrite Hp.
Qed.

(** X13. Repeating a containment action is harmless. On an operating
    system where a successful [chmod] leaves the path in place and can be
    repeated with the same result, a second [lock_file] on the same path
    ends in the state the first one reached. Where the move of a
    quarantine succeeds and leaves no file at the source, a second
    [quarantine_file] on the same path does nothing at all. *)
Theorem containment_is_idempotent eng path (w w1 : World) :
  (∀ w', os_chmod path 256 w = Some w' →
         os_path_exists w' path = true ∧ os_chmod path 256 w' = Some w') →
  (shutil_move path (path_join (quarantine_dir eng) (basename path)) w = Some w1 →
     os_path_exists w1 path = false) →
  (Response.lock_file eng path (Response.lock_file eng path w).1).1 =
     (Response.lock_file eng path w).1 ∧
  (dry_run eng = false → os_path_exists w path = true →
   shutil_move path (path_join (quarantine_dir eng) (basename path)) w = Some w1 →
     Response.quarantine_file eng path w = (w1, [MsgQuarantining path]) ∧
     Response.quarantine_file eng path w1 = (w1, [])).
Proof.
  intros Hchmod Hmove. split.
  - unfold Response.lock_file.
    destruct (os_path_exists w path) eqn:He; simpl; [| by rewrite He].
    destruct (dry_run eng) eqn:Hd; simpl; [by rewrite He |].
    destruct (os_chmod path 256 w) as [w' |] eqn:Hc; simpl.
    + destruct (Hchmod w' eq_refl) as (He' & Hc'). by rewrite He', Hc'.
    + by rewrite He, Hc.
  - intros Hd He Hm. unfold Response.quarantine_file.
    rewrite He, Hd, Hm. simpl. by rewrite (Hmove Hm).
Qed.





Lemma prefix_empty (s : string) : String.prefix "" s = true.
Proof. by destruct s. Qed.

Lemma prefix_app (a b : string) : String.prefix a (a +:+ b) = true.
Proof.
  induction a as [| c a IH]; simpl; [apply prefix_empty |].
  destruct (Ascii.ascii_dec c c); [exact IH | done].
Qed.

(** X15. The test of [kill_offending_process] is a plain string prefix.
    A process is selected as soon as one of its open paths extends
    [dir_path] by any characters at all, so a file in a sibling directory
    whose name merely starts with that of [dir_path] selects it too; and
    with the empty [dir_path] (the [dirname] of a bare file name) every
    process with at least one open file is selected. *)
Theorem prefix_match_is_textual (proc : ProcInfo) files :
  open_files proc = Some files →
  (∀ dir_path rest, (dir_path +:+ rest) ∈ files →
     is_Some (kill_target dir_path proc)) ∧
  (∀ f files', files = f :: files' → kill_target "" proc = Some (pid proc, f)).
Proof.
  intros Hof. split.
  - intros dir_path rest Hin. unfold kill_target, Response.first_open_under.
    rewrite Hof.
    destruct (List.find (String.prefix dir_path) files) as [f |] eqn:Hf;
      [by eexists |].
    apply list_elem_of_In in Hin.
    pose proof (List.find_none _ _ Hf _ Hin) as Hno.
    by rewrite prefix_app in Hno.
  - intros f files' ->. unfold kill_target, Response.first_open_under.
    rewrite Hof. simpl. by rewrite prefix_empty.
Qed.

Lemma lock_files_in_log root files : ∀ w : World,
  ∃ k, (Response.lock_files_in root files w).2 = replicate k ErrLockInDir ∧
       (k <= length files)%nat.
Proof.
  induction files as [| f files IH]; intros w; [by exists 0%nat |].
  simpl. destruct (os_chmod (path_join root f) 256 w) as [w' |].
  - destruct (IH w') as (k & Hk & Hle).
    destruct (Response.lock_files_in root files w') as [w2 out2].
    simpl in *. exists k. split; [done | lia].
  - destruct (IH w) as (k & Hk & Hle).
    destruct (Response.lock_files_in root files w) as [w2 out2].
    simpl in *. exists (S k). split; [by rewrite Hk | lia].
Qed.

Lemma lock_walk_log walk : ∀ w : World,
  ∃ k, (Response.lock_walk walk w).2 = replicate k ErrLockInDir ∧
       (k <= walked_files walk)%nat.
Proof.
  induction walk as [| [root files] walk IH]; intros w; [by exists 0%nat |].
  simpl.
  destruct (lock_files_in_log root files w) as (k1 & Hk1 & Hle1).
  destruct (Response.lock_files_in root files w) as [w1 out1].
  destruct (IH w1) as (k2 & Hk2 & Hle2).
  destruct (Response.lock_walk walk w1) as [w2 out2].
  simpl in *. exists (k1 + k2)%nat. split.
  - by rewrite Hk1, Hk2, replicate_add.
  - unfold walked_files in *. simpl. lia.
Qed.

(** X16. What [lock_directory] reports when it is not a dry run: its own
    line first, then nothing but per-file error lines, at most one for
    each file the walk listed. A failure to change the mode of the
    directory itself is never reported. *)
Theorem lock_directory_output eng dir_path (w : World) :
  dry_run eng = false →
  ∃ k, (Response.lock_directory eng dir_path w).2 =
         MsgLockingDirectory dir_path :: replicate k ErrLockInDir ∧
       (k <= walked_files (os_walk w dir_path))%nat.
Proof.
  intros Hd. unfold Response.lock_directory. rewrite Hd.
  destruct (lock_walk_log (os_walk w dir_path) w) as (k & Hk & Hle).
  destruct (Response.lock_walk (os_walk w dir_path) w) as [w1 out1].
  simpl in *. exists k. by rewrite Hk.
Qed.

End EngineMore.

(** * Further properties of the event handler *)

Section HandlerMore.
Context `{Sklearn} `{PathLib} `{OS}.

Lemma handle_threat_detector_effects path count (d : Detector) :
  Forall detector_effect (Det._handle_threat path count d).2.
Proof.
  assert (∀ (g : string → ResponseCall) (l : list string),
            Forall detector_effect (map (fun f => Invoke (g f)) l)) as Hinv.
  { intros g l. apply Forall_forall. intros e He.
    by apply list_elem_of_fmap in He as (f & -> & _). }
  unfold Det._handle_threat.
  destruct (response_engine d), (Det.truthy path); simpl;
    try (by repeat constructor).
  destruct (threshold d <=? count), (threshold d * 2 <=? count); simpl;
    repeat first
      [ apply Hinv
      | apply Forall_nil_2
      | apply Forall_cons; split; [done |]
      | apply Forall_app; split ].
Qed.

(** The detector only prints and calls the engine. *)
Lemma add_event_detector_effects now fv path (d : Detector) :
  Forall detector_effect (effects (Det.add_event now fv path d)).
Proof.
  unfold Det.add_event.
  destruct (Det.maybe_retrain now _) as [d2 [e |]]; [done |].
  destruct (Det.classify d2 fv) as [v | e]; [| done].
  pose proof (handle_threat_detector_effects path
                (Z.of_nat (length (event_queue d2))) d2) as Hh.
  destruct (Det.is_ml_anomaly v || _).
  - destruct (Det._handle_threat _ _ _) as [d3 out]. simpl in *.
    apply Forall_app. split; [| done]. destruct (Det.is_ml_anomaly v); by repeat constructor.
  - simpl. destruct (Det.is_ml_anomaly v); by repeat constructor.
Qed.

Lemma log_writes_detector effs :
  Forall detector_effect effs → log_writes effs = [].
Proof.
  induction 1 as [| e effs He _ IH]; [done |].
  unfold log_writes in *. simpl. by destruct e.
Qed.

Lemma callback_unfold c (self : IDPSEventHandler) now (w : World) event :
  Handler.callback c self now w event =
    if callback_ignores c self event then Handler.dropped self
    else Handler.handle (callback_what c) (callback_dest c event) self now w event.
Proof. by destruct c. Qed.

(** X17. An event of a class the handler does not know (a directory
    event, say) that is not ignored never reaches the detector: no
    feature vector is built, the handler and its detector are unchanged
    even when no detector is attached, nothing raises, and the event is
    still reported to the console, the GUI and the log file. *)
Theorem unknown_event_is_only_reported c (self : IDPSEventHandler) now (w : World) event :
  event_class event = OtherEvent →
  callback_ignores c self event = false →
  Handler.callback c self now w event =
    {| handler_after := self; trace := report c event; handler_raised := None |}.
Proof.
  intros Hk Hi. rewrite callback_unfold, Hi.
  unfold Handler.handle, Handler._get_event_vector, Handler._get_event_type.
  by rewrite Hk.
Qed.

(** X18. An event is written to the log file exactly when its callback
    is not ignored and returns: then the trace is what the detector did
    (prints and engine calls only) followed by the console line, the GUI
    line and the log line, once each. When the event is ignored, or the
    detector raises, or no detector is attached to take a file event,
    nothing is written to the log. *)
Theorem logged_iff_returned c (self : IDPSEventHandler) now (w : World) event :
  let res := Handler.callback c self now w event in
  log_writes (trace res) =
    (if callback_ignores c self event then []
     else match handler_raised res with
          | None => [(callback_what c, src_path event, callback_dest c event)]
          | Some _ => []
          end) ∧
  (callback_ignores c self event = false → handler_raised res = None →
     ∃ pre, trace res = pre ++ report c event ∧ Forall detector_effect pre).
Proof.
  intros res. unfold res. rewrite callback_unfold.
  destruct (callback_ignores c self event); [done |].
  unfold Handler.handle.
  destruct (Handler._get_event_vector w event) as [fv |]; simpl.
  - destruct (anomaly_detector self) as [d |]; simpl; [| done].
    pose proof (add_event_detector_effects now fv (Some (src_path event)) d) as Hd.
    destruct (raised (Det.add_event now fv (Some (src_path event)) d)); simpl.
    + split; [by apply log_writes_detector | done].
    + split.
      * unfold log_writes in *. rewrite omap_app.
        fold (log_writes (effects (Det.add_event now fv (Some (src_path event)) d))).
        by rewrite (log_writes_detector _ Hd).
      * intros _ _. by eexists.
  - split; [done |]. intros _ _. by exists [].
Qed.

(** X19. Every sample the handler feeds to the detector is a pair of an
    event-class code between 0 and 3 and a size, so the sample buffer the
    model is trained on stays a two-column matrix: if all samples have
    that shape before a callback, all have it after, whatever the event
    and whether or not the detector raised. *)
Theorem samples_stay_rectangular c (self : IDPSEventHandler) now (w : World) event
    (d d' : Detector) :
  anomaly_detector self = Some d →
  Forall handler_vector (samples d) →
  anomaly_detector (handler_after (Handler.callback c self now w event)) = Some d' →
  Forall handler_vector (samples d').
Proof.
  intros Hd Hs. rewrite callback_unfold.
  destruct (callback_ignores c self event); simpl;
    [rewrite Hd; by intros [= <-] |].
  unfold Handler.handle, Handler._get_event_vector.
  destruct (Handler._get_event_type event =? -1) eqn:Ek; simpl;
    [rewrite Hd; by intros [= <-] |].
  rewrite Hd.
  set (fv := [Handler._get_event_type event; _]).
  assert (handler_vector fv) as Hfv.
  { do 2 eexists. split; [reflexivity |].
    unfold Handler._get_event_type in *. destruct (event_class event); done. }
  assert (Forall handler_vector
            (samples (after (Det.add_event now fv (Some (src_path event)) d))))
    as Hafter.
  { rewrite add_event_samples. unfold take_last. apply Forall_drop.
    apply Forall_app. split; [exact Hs | by constructor]. }
  destruct (raised (Det.add_event now fv (Some (src_path event)) d)); simpl;
    by intros [= <-].
Qed.

End HandlerMore.

(** ** The further properties on the concrete scenarios *)

Section MoreExamples.
#[local] Existing Instance Memo.sklearn.
#[local] Existing Instance Posix.pathlib.
#[local] Existing Instance SimOS.os.
Import Scenario.

(** [samples_ring] on a buffer of capacity 2 fed three events. *)
Lemma samples_ring_witness :
  (length (samples (after (Det.add_events training_events (detector 1 2 (Some engine)))))
     <= 2)%nat ∧
  samples (after (Det.add_events training_events (detector 1 2 (Some engine)))) =
    [[3; 20]; [3; 20]].
Proof.
  destruct (samples_ring training_events (detector 1 2 (Some engine))
              ltac:(simpl; lia)) as (Hbound & Hrun).
  split; [exact Hbound | exact (Hrun eq_refl)].
Defined.

(** [window_sign] with a 60-second window and with a window of -1. *)
Lemma window_sign_witness :
  last (event_queue (Det.record_event (Time.seconds 5) [3; 10] (Some "/w/a")
                       (detector 10 1000 None))) =
    Some (Time.seconds 5, [3; 10], Some "/w/a") ∧
  event_queue (after (Det.add_event (Time.seconds 5) [3; 10] (Some "/w/a")
                        (Det.init 10 (-1) 30 1000 None 0))) = [].
Proof.
  destruct (window_sign (Time.seconds 5) [3; 10] (Some "/w/a") (detector 10 1000 None))
    as (Hpos & _).
  destruct (window_sign (Time.seconds 5) [3; 10] (Some "/w/a")
              (Det.init 10 (-1) 30 1000 None 0)) as (_ & Hneg).
  split.
  - exact (proj1 (Hpos ltac:(vm_compute; discriminate))).
  - exact (proj2 (Hneg ltac:(vm_compute; reflexivity))).
Defined.

(** [escalation_entered_iff] on a first event, threshold 10, no model:
    nothing happens. *)
Lemma escalation_entered_iff_witness :
  let r := Det.add_event (Time.seconds 5) [3; 10] (Some "/w/a") (detector 10 1000 (Some engine)) in
  effects r = [] ∧
  after r = Det.record_event (Time.seconds 5) [3; 10] (Some "/w/a")
              (detector 10 1000 (Some engine)).
Proof.
  destruct (escalation_entered_iff (Time.seconds 5) [3; 10] (Some "/w/a")
              (detector 10 1000 (Some engine))
              (Det.record_event (Time.seconds 5) [3; 10] (Some "/w/a")
                 (detector 10 1000 (Some engine)))
              Det.Unknown eq_refl eq_refl) as (_ & Hquiet).
  apply Hquiet; [discriminate | vm_compute; reflexivity].
Defined.

(** [trigger_path_is_contained] on the second of two files, threshold 1. *)
Lemma trigger_path_is_contained_witness :
  let d := after (Det.add_events [modified 1 10 "/w/a"] (detector 1 1000 (Some engine))) in
  let r := Det.add_event (Time.seconds 2) [3; 10] (Some "/w/b") d in
  lock_file_call "/w/b" ∈ calls (effects r) ∧
  quarantine_file_call "/w/b" ∈ calls (effects r).
Proof.
  intros d r.
  destruct (trigger_path_is_contained (Time.seconds 2) [3; 10] (Some "/w/b") "/w/b"
              engine d
              (Det.maybe_retrain (Time.seconds 2)
                 (Det.record_event (Time.seconds 2) [3; 10] (Some "/w/b") d)).1
              Det.Unknown eq_refl eq_refl eq_refl eq_refl
              ltac:(vm_compute; discriminate))
    as (_ & Hlock & Hquar).
  split; [apply Hlock | apply Hquar]; vm_compute; discriminate.
Defined.

(** [retrain_then_classify] on the second event of [training_events]:
    the model is fitted on both samples and finds the event normal. *)
Lemma retrain_then_classify_witness :
  let d := after (Det.add_events [modified 1 10 "/w/a"] (detector 1 2 (Some engine))) in
  let r := Det.add_event (Time.seconds 31) [3; 20] (Some "/w/a") d in
  raised r = None ∧
  model (after r) =
    Some {| contamination := 1 # 2; random_state := 42;
            fitted := Some [[3; 10]; [3; 20]] |} ∧
  last_trained (after r) = Time.seconds 31.
Proof.
  intros d r.
  destruct (retrain_then_classify (Time.seconds 31) [3; 20] (Some "/w/a") d
              [[3; 10]; [3; 20]] eq_refl
              ltac:(vm_compute; discriminate) eq_refl ltac:(simpl; lia) eq_refl)
    as (Hr & _ & Hm & Hl & _).
  exact (conj Hr (conj Hm Hl)).
Defined.


(** [small_buffer_never_trains]: capacity 5, threshold 10. *)
Lemma small_buffer_never_trains_witness :
  raised (Det.add_events (quarter_burst 20 (Time.seconds 40)) (detector 10 5 (Some engine))) = None ∧
  model (after (Det.add_events (quarter_burst 20 (Time.seconds 40))
                  (detector 10 5 (Some engine)))) = None.
Proof.
  destruct (small_buffer_never_trains (quarter_burst 20 (Time.seconds 40))
              (detector 10 5 (Some engine)) ltac:(vm_compute; reflexivity) I)
    as (Hm & Hr & _).
  exact (conj (Hr eq_refl) Hm).
Defined.

(** [empty_buffer_divides_by_zero]: capacity 0, threshold 0, 31 seconds
    after construction. *)
Lemma empty_buffer_divides_by_zero_witness :
  raised (Det.add_event (Time.seconds 31) [3; 10] (Some "/w/a")
            (Det.init 0 60 30 0 None 0)) = Some ZeroDivisionError.
Proof.
  apply (empty_buffer_divides_by_zero (Time.seconds 31) [3; 10] (Some "/w/a")
           (Det.init 0 60 30 0 None 0)); [reflexivity | vm_compute; discriminate | reflexivity].
Defined.

(** [missing_target_is_skipped] on a path and a process [world] lacks. *)
Lemma missing_target_is_skipped_witness :
  Response.lock_file engine "/w/gone" world = (world, []) ∧
  Response.quarantine_file engine "/w/gone" world = (world, []) ∧
  Response.kill_process engine 8 world = (world, [ErrKill]).
Proof.
  destruct (@missing_target_is_skipped Posix.pathlib SimOS.os engine world)
    as (Hpath & Hpid).
  destruct (Hpath "/w/gone" eq_refl) as (Hlock & Hquar).
  exact (conj Hlock (conj Hquar (Hpid 8 eq_refl))).
Defined.

(** [containment_is_idempotent] on the file of [world]. *)
Lemma containment_is_idempotent_witness :
  let w : @World SimOS.os := world in
  (Response.lock_file engine "/w/a" (Response.lock_file engine "/w/a" w).1).1 =
    (Response.lock_file engine "/w/a" w).1 ∧
  Response.quarantine_file engine "/w/a" (Response.quarantine_file engine "/w/a" w).1 =
    ((Response.quarantine_file engine "/w/a" w).1, []).
Proof.
  intros w. unfold w. clear w.
  set (moved := (@Response.quarantine_file Posix.pathlib SimOS.os engine "/w/a" world).1).
  destruct (@containment_is_idempotent Posix.pathlib SimOS.os engine "/w/a" world moved)
    as (Hlock & Hquar).
  - intros w' Hc. vm_compute in Hc. injection Hc as <-. split; vm_compute; reflexivity.
  - intros _. vm_compute. reflexivity.
  - split; [exact Hlock |].
    exact (proj2 (Hquar eq_refl eq_refl ltac:(vm_compute; reflexivity))).
Defined.


(** [prefix_match_is_textual]: a process with [/w2/x] open is selected
    for the directory [/w], and for the empty directory name. *)
Lemma prefix_match_is_textual_witness :
  is_Some (kill_target "/w" neighbour) ∧
  kill_target "" neighbour = Some (9, "/w2/x").
Proof.
  destruct (prefix_match_is_textual neighbour ["/w2/x"] eq_refl) as (Hext & Hempty).
  split.
  - apply (Hext "/w" "2/x"). apply list_elem_of_here.
  - by apply (Hempty "/w2/x" []).
Defined.

(** [lock_directory_output] on [world]: every chmod succeeds. *)
Lemma lock_directory_output_witness :
  ∃ k, (Response.lock_directory engine "/w" world).2 =
         MsgLockingDirectory "/w" :: replicate k ErrLockInDir ∧
       (k <= walked_files (os_walk world "/w"))%nat.
Proof.
  exact (@lock_directory_output Posix.pathlib SimOS.os engine "/w" world eq_refl).
Defined.

(** [unknown_event_is_only_reported] on a directory creation. *)
Lemma unknown_event_is_only_reported_witness :
  Handler.on_created handler (Time.seconds 5) world dir_created =
    {| handler_after := handler;
       trace := [Print (MsgAlert "created" "/w/sub" "");
                 GuiLog "created" "/w/sub" ""; LogEvent "created" "/w/sub" ""];
       handler_raised := None |}.
Proof.
  exact (@unknown_event_is_only_reported Memo.sklearn Posix.pathlib SimOS.os
           Handler.OnCreated handler (Time.seconds 5) world dir_created eq_refl eq_refl).
Defined.

(** [logged_iff_returned] on a modification of the file of [world]. *)
Lemma logged_iff_returned_witness :
  log_writes (trace (Handler.on_modified handler (Time.seconds 5) world modified_a)) =
    [("modified", "/w/a", "")].
Proof.
  exact (proj1 (@logged_iff_returned Memo.sklearn Posix.pathlib SimOS.os
                  Handler.OnModified handler (Time.seconds 5) world modified_a)).
Defined.

(** [samples_stay_rectangular] on the same modification. *)
Lemma samples_stay_rectangular_witness :
  Forall handler_vector
    (samples (after (Det.add_event (Time.seconds 5) [3; 10] (Some "/w/a")
                       (detector 10 1000 (Some engine))))).
Proof.
  apply (@samples_stay_rectangular Memo.sklearn Posix.pathlib SimOS.os
           Handler.OnModified handler (Time.seconds 5) world modified_a
           (detector 10 1000 (Some engine)) _ eq_refl); [constructor | reflexivity].
Defined.

End MoreExamples.
